(** * Pagila MCP server (server.py): the SQL gate and the reporting tools

    A shallow embedding of [server.py] and the properties of its query
    validation, its read-only execution, its security log and its
    reporting operations.

    Python text ([str]) is a sequence of Unicode code points, a list of
    [N] here.  The database server, the clock and the log file are the
    environment: a [World] record threaded through a state and exception
    monad.  The server may refuse the connection and may fail any
    statement, with an [asyncpg.PostgresError] or with another
    exception.  Opening the log file may fail, and a text with a lone
    surrogate cannot be written to it; closing a connection is taken to
    succeed. *)

From Stdlib Require Import List NArith ZArith Bool Lia.
From Stdlib Require Import Ascii String DecimalString.
Import ListNotations.

Local Open Scope N_scope.

(** ** Python strings *)

Definition codepoint := N.
Definition str := list codepoint.

(** The code points of a literal: [server.py] is UTF-8, and so are the
    literals below; [utf8] decodes the bytes of one. *)
Fixpoint decode_utf8 (bs : list N) : str :=
  match bs with
  | [] => []
  | b :: r =>
      if b <? 128 then b :: decode_utf8 r
      else if b <? 224 then
        match r with
        | b1 :: r1 => ((b - 192) * 64 + (b1 - 128)) :: decode_utf8 r1
        | _ => []
        end
      else if b <? 240 then
        match r with
        | b1 :: b2 :: r2 =>
            ((b - 224) * 4096 + (b1 - 128) * 64 + (b2 - 128)) :: decode_utf8 r2
        | _ => []
        end
      else
        match r with
        | b1 :: b2 :: b3 :: r3 =>
            ((b - 240) * 262144 + (b1 - 128) * 4096 + (b2 - 128) * 64 + (b3 - 128))
              :: decode_utf8 r3
        | _ => []
        end
  end.

Definition utf8 (s : string) : str :=
  decode_utf8 (map N_of_ascii (list_ascii_of_string s)).

(** [s.startswith(prefix)] *)
Fixpoint startswith (prefix s : str) : bool :=
  match prefix, s with
  | [], _ => true
  | _ :: _, [] => false
  | p :: prefix', c :: s' => (p =? c) && startswith prefix' s'
  end.

(** [sub in s] *)
Fixpoint contains (sub s : str) : bool :=
  startswith sub s ||
  match s with
  | [] => false
  | _ :: s' => contains sub s'
  end.

(** [str.isspace] of one code point: the white space of CPython's
    [_Py_ascii_whitespace] and [_PyUnicode_IsWhitespace]. *)
Definition is_space (c : codepoint) : bool :=
  ((9 <=? c) && (c <=? 13)) || ((28 <=? c) && (c <=? 32))
  || (c =? 133) || (c =? 160) || (c =? 5760)
  || ((8192 <=? c) && (c <=? 8202))
  || (c =? 8232) || (c =? 8233) || (c =? 8239) || (c =? 8287) || (c =? 12288).

Fixpoint lstrip (s : str) : str :=
  match s with
  | [] => []
  | c :: s' => if is_space c then lstrip s' else s
  end.

Definition rstrip (s : str) : str := rev (lstrip (rev s)).

(** [s.strip()] *)
Definition strip (s : str) : str := rstrip (lstrip s).

(** [s[:-1]] *)
Definition drop_last (s : str) : str := removelast s.

(** [sep.join(parts)] *)
Fixpoint join (sep : str) (parts : list str) : str :=
  match parts with
  | [] => []
  | [p] => p
  | p :: rest => p ++ sep ++ join sep rest
  end.

(** [c * n] for a one-character string *)
Definition repeat_char (c : codepoint) (n : nat) : str := repeat c n.

(** [str(n)] of a natural number and of an integer *)
Definition str_of_N (n : N) : str :=
  utf8 (NilZero.string_of_uint (N.to_uint n)).

Definition str_of_Z (z : Z) : str :=
  utf8 (NilZero.string_of_int (Z.to_int z)).

(** The upper-case letter of an ASCII code point. *)
Definition ascii_upper (c : codepoint) : codepoint :=
  if (97 <=? c) && (c <=? 122) then c - 32 else c.

Definition LF : codepoint := 10.
Definition SEMICOLON : codepoint := 59.


(** A [str] may hold lone surrogates, U+D800 to U+DFFF; the UTF-8 codec
    refuses to encode them. *)
Definition is_surrogate (c : codepoint) : bool := (55296 <=? c) && (c <=? 57343).

Definition utf8_encodable (text : str) : bool :=
  forallb (fun c => negb (is_surrogate c)) text.

(** The index of the first surrogate of a text, and the number of
    surrogates a text begins with. *)
Fixpoint surrogate_start (text : str) : nat :=
  match text with
  | [] => 0
  | c :: rest => if is_surrogate c then 0 else S (surrogate_start rest)
  end.

Fixpoint surrogate_run (text : str) : nat :=
  match text with
  | [] => 0
  | c :: rest => if is_surrogate c then S (surrogate_run rest) else 0
  end.

Definition hex_digit (n : N) : codepoint := if n <? 10 then 48 + n else 87 + n.

Definition hex4 (c : codepoint) : str :=
  [hex_digit (c / 4096 mod 16); hex_digit (c / 256 mod 16);
   hex_digit (c / 16 mod 16); hex_digit (c mod 16)].

(** [str(e)] of the [UnicodeEncodeError] that encoding [text] raises: it
    names the first run of surrogates. *)
Definition encode_error_message (text : str) : str :=
  let start := surrogate_start text in
  let bad := skipn start text in
  match surrogate_run bad with
  | 1%nat =>
      utf8 "'utf-8' codec can't encode character '\u" ++ hex4 (hd 0 bad)
      ++ utf8 "' in position " ++ str_of_N (N.of_nat start)
      ++ utf8 ": surrogates not allowed"
  | n =>
      utf8 "'utf-8' codec can't encode characters in position "
      ++ str_of_N (N.of_nat start) ++ utf8 "-"
      ++ str_of_N (N.of_nat (start + n - 1))
      ++ utf8 ": surrogates not allowed"
  end.


(** ** Python floats *)

Local Open Scope Z_scope.

(** A finite [float], the binary64 number [mantissa * 2 ^ exponent].  The
    exponent is not bounded: the range of binary64 is far beyond any sum
    of payments. *)
Record float : Type := { mantissa : Z; exponent : Z }.

(** [num / den] rounded to the nearest integer, ties to even ([0 < den]). *)
Definition round_div (num den : Z) : Z :=
  let q := num / den in
  let r := num mod den in
  if 2 * r <? den then q
  else if den <? 2 * r then q + 1
  else if Z.even q then q else q + 1.

(** The binade of [a / 100] for [0 < a]: the [e] with
    [2 ^ e <= a / 100 < 2 ^ (e + 1)]. *)
Definition binade (a : Z) : Z := Z.log2 (a * 2 ^ 60 / 100) - 60.

(** [a / 100] in units of the last of 53 significant bits, rounded. *)
Definition significand (a : Z) : Z :=
  let p := 52 - binade a in
  if 0 <=? p then round_div (a * 2 ^ p) 100
  else round_div a (100 * 2 ^ (- p)).

(** [float(d)] for a [Decimal] [d] of [h] hundredths: the binary64 number
    nearest to [h / 100]. *)
Definition float_of_hundredths (h : Z) : float :=
  if h =? 0 then {| mantissa := 0; exponent := 0 |}
  else {| mantissa := Z.sgn h * significand (Z.abs h);
          exponent := - (52 - binade (Z.abs h)) |}.

(** [float(0)] *)
Definition float_zero : float := {| mantissa := 0; exponent := 0 |}.

(** [x > n] for a float [x] and an integer [n] *)
Definition float_gt (x : float) (n : Z) : bool :=
  if 0 <=? exponent x then n <? mantissa x * 2 ^ exponent x
  else n * 2 ^ (- exponent x) <? mantissa x.

(** The value of [x] rounded to two decimals, in hundredths. *)
Definition hundredths_of_float (x : float) : Z :=
  if 0 <=? exponent x then mantissa x * 2 ^ exponent x * 100
  else round_div (mantissa x * 100) (2 ^ (- exponent x)).

Local Close Scope Z_scope.

(** ** The environment: clock, log file and database server *)

(** What [except] distinguishes: [asyncpg.PostgresError] (and its
    subclasses) from every other [Exception]; [msg] is [str(e)]. *)
Inductive exn : Type :=
| PostgresError (msg : str)
| OtherException (msg : str).

Inductive reply (A : Type) : Type :=
| Ok (a : A)
| Fails (e : exn).
Arguments Ok {A} a.
Arguments Fails {A} e.

(** A value of a result column, as far as [str(val)] needs it. *)
Inductive pyval : Type :=
| PNone
| PInt (z : Z)
| PStr (s : str)
| POther (text : str).

Definition py_str (v : pyval) : str :=
  match v with
  | PNone => utf8 "None"
  | PInt z => str_of_Z z
  | PStr s => s
  | POther text => text
  end.

(** [asyncpg.Record]: the columns of a row in the order of the query. *)
Definition Record := list (str * pyval).
Definition keys (r : Record) : list str := map fst r.
Definition values (r : Record) : list pyval := map snd r.

(** A row of the query of [list_creative_customers].  [total_spent] is a
    [numeric] with two decimals ([payment.amount] is [numeric(5,2)]),
    counted in hundredths; [None] is SQL [NULL]. *)
Record customer_row : Type := {
  first_name : str;
  last_name : str;
  total_spent : option Z
}.

(** The database server as the operations see it: what it answers to
    [asyncpg.connect], to [conn.execute(sql)] and to [conn.fetch(sql)].
    The three fixed queries are answered with rows of their own columns. *)
Record Database : Type := {
  connect_reply : reply unit;
  execute_reply : str -> reply unit;
  fetch_reply : str -> reply (list Record);
  fetch_tables_reply : reply (list str);
  fetch_customers_reply : reply (list customer_row);
  fetch_categories_reply : reply (list str)
}.

(** [datetime.datetime.now()] *)
Record datetime : Type := {
  year : N; month : N; day : N; hour : N; minute : N; second : N
}.

Definition digit (n : N) : codepoint := 48 + n mod 10.
Definition pad2 (n : N) : str := [digit (n / 10); digit n].
Definition pad4 (n : N) : str :=
  [digit (n / 1000); digit (n / 100); digit (n / 10); digit n].

(** [t.strftime("%Y-%m-%d %H:%M:%S")] *)
Definition strftime (t : datetime) : str :=
  pad4 (year t) ++ utf8 "-" ++ pad2 (month t) ++ utf8 "-" ++ pad2 (day t)
  ++ utf8 " " ++ pad2 (hour t) ++ utf8 ":" ++ pad2 (minute t)
  ++ utf8 ":" ++ pad2 (second t).

Definition conn := nat.

(** What an operation does to the database server, in order. *)
Inductive event : Type :=
| EvOpen (c : conn)
| EvExecute (c : conn) (sql : str)
| EvFetch (c : conn) (sql : str)
| EvClose (c : conn).

Record World : Type := {
  now : datetime;
  log_file : str;           (* the text of alertas_seguridad.log *)
  log_open_reply : reply unit;   (* what opening the log for append answers *)
  database : Database;
  next_conn : conn;
  trace : list event
}.

Definition write_log (text : str) (w : World) : World :=
  {| now := now w; log_file := log_file w ++ text;
     log_open_reply := log_open_reply w; database := database w;
     next_conn := next_conn w; trace := trace w |}.

Definition record_event (e : event) (w : World) : World :=
  {| now := now w; log_file := log_file w;
     log_open_reply := log_open_reply w; database := database w;
     next_conn := next_conn w; trace := trace w ++ [e] |}.

Definition fresh_conn (w : World) : World :=
  {| now := now w; log_file := log_file w;
     log_open_reply := log_open_reply w; database := database w;
     next_conn := S (next_conn w); trace := trace w |}.

(** ** Computations: state and exceptions *)

Inductive result (A : Type) : Type :=
| Returned (a : A)
| Raised (e : exn).
Arguments Returned {A} a.
Arguments Raised {A} e.

Definition M (A : Type) : Type := World -> result A * World.

Definition ret {A} (a : A) : M A := fun w => (Returned a, w).

Definition bind {A B} (m : M A) (k : A -> M B) : M B :=
  fun w =>
    match m w with
    | (Returned a, w') => k a w'
    | (Raised e, w') => (Raised e, w')
    end.

Definition raise {A} (e : exn) : M A := fun w => (Raised e, w).

(** [try: body  except ... as e: handler e] *)
Definition try_except {A} (body : M A) (handler : exn -> M A) : M A :=
  fun w =>
    match body w with
    | (Returned a, w') => (Returned a, w')
    | (Raised e, w') => handler e w'
    end.

(** [try: body  finally: cleanup] *)
Definition try_finally {A} (body : M A) (cleanup : M unit) : M A :=
  fun w =>
    match body w with
    | (r, w') =>
        match cleanup w' with
        | (Returned _, w'') => (r, w'')
        | (Raised e, w'') => (Raised e, w'')
        end
    end.

Declare Scope py_scope.
Delimit Scope py_scope with py.
Notation "x <- m ;; k" := (bind m (fun x => k))
  (at level 61, m at next level, right associativity) : py_scope.
Notation "m ;; k" := (bind m (fun _ => k))
  (at level 61, right associativity) : py_scope.

Definition of_reply {A} (r : reply A) : M A :=
  match r with
  | Ok a => ret a
  | Fails e => raise e
  end.

(** [await get_db_connection()] *)
Definition get_db_connection : M conn :=
  fun w =>
    match connect_reply (database w) with
    | Ok _ => (Returned (next_conn w), fresh_conn (record_event (EvOpen (next_conn w)) w))
    | Fails e => (Raised e, w)
    end.

(** [await conn.execute(sql)] *)
Definition conn_execute (c : conn) (sql : str) : M unit :=
  fun w => of_reply (execute_reply (database w) sql) (record_event (EvExecute c sql) w).

(** [await conn.fetch(sql)] for SQL whose rows are read as [Record]s *)
Definition conn_fetch (c : conn) (sql : str) : M (list Record) :=
  fun w => of_reply (fetch_reply (database w) sql) (record_event (EvFetch c sql) w).

(** [await conn.fetch(sql)] for a fixed query, answered by [answer] *)
Definition conn_fetch_fixed {A} (c : conn) (sql : str)
    (answer : Database -> reply (list A)) : M (list A) :=
  fun w => of_reply (answer (database w)) (record_event (EvFetch c sql) w).

(** [await conn.close()] *)
Definition conn_close (c : conn) : M unit :=
  fun w => (Returned tt, record_event (EvClose c) w).

(** The text [registrar_alerta_seguridad] writes. *)
Definition alert_text (timestamp motivo query : str) : str :=
  utf8 "⚠️ [" ++ timestamp ++ utf8 "] [BLOQUEADO] Motivo: " ++ motivo
  ++ utf8 " | Query: " ++ query ++ [LF].

(** [registrar_alerta_seguridad(query, motivo)]: the log is opened for
    append, which may raise; then one write, which raises when the text
    cannot be encoded in UTF-8 and then leaves the file as it was. *)
Definition registrar_alerta_seguridad (query motivo : str) : M unit :=
  fun w =>
    let timestamp := strftime (now w) in
    match log_open_reply w with
    | Fails e => (Raised e, w)
    | Ok _ =>
        let text := alert_text timestamp motivo query in
        if utf8_encodable text then (Returned tt, write_log text w)
        else (Raised (OtherException (encode_error_message text)), w)
    end.

Local Open Scope py_scope.

(** ** The operations of server.py *)

Section Server.

Definition PALABRAS_PROHIBIDAS : list str :=
  [utf8 "DROP"; utf8 "DELETE"; utf8 "UPDATE"; utf8 "TRUNCATE"; utf8 "ALTER";
   utf8 "GRANT"; utf8 "INSERT"].

Definition list_tables_query : str := utf8 "
        SELECT table_name 
        FROM information_schema.tables 
        WHERE table_schema = 'public' 
        ORDER BY table_name;
        ".

Definition list_tables : M str :=
  conn <- get_db_connection ;;
  try_finally
    (tables <- conn_fetch_fixed conn list_tables_query fetch_tables_reply ;;
     ret (utf8 "Tablas encontradas en Pagila: " ++ join (utf8 ", ") tables))
    (conn_close conn).

Definition READ_ONLY : str :=
  utf8 "SET SESSION CHARACTERISTICS AS TRANSACTION READ ONLY".

(** The report of [run_select_query] for a non-empty result. *)
Definition result_text (rows : list Record) (columns : list str) : str :=
  utf8 "Resultados (" ++ str_of_N (N.of_nat (List.length rows)) ++ utf8 " filas):" ++ [LF]
  ++ join (utf8 " | ") columns ++ [LF]
  ++ repeat_char 45 50 ++ [LF]
  ++ flat_map (fun row => join (utf8 " | ") (map py_str (values row)) ++ [LF]) rows.

(** Lines 73 to 89: the body of the [try]. *)
Definition read_only_fetch (conn : conn) (query : str) : M str :=
  conn_execute conn READ_ONLY ;;
  rows <- conn_fetch conn query ;;
  match rows with
  | [] => ret (utf8 "La consulta no devolvió resultados.")
  | row0 :: _ => ret (result_text rows (keys row0))
  end.

(** Lines 91 to 95: the two [except] clauses. *)
Definition on_exception (query : str) (e : exn) : M str :=
  match e with
  | PostgresError msg =>
      registrar_alerta_seguridad query (utf8 "ERROR DB: " ++ msg) ;;
      ret (utf8 "ERROR DE BASE DE DATOS: " ++ msg)
  | OtherException msg =>
      ret (utf8 "ERROR DEL SISTEMA: " ++ msg)
  end.

(** Lines 71 to 97: the query on a connection of its own. *)
Definition execute_query (query : str) : M str :=
  conn <- get_db_connection ;;
  try_finally
    (try_except (read_only_fetch conn query) (on_exception query))
    (conn_close conn).

(** [str.upper] maps each code point on its own.  On ASCII it is
    [ascii_upper]; the upper-case mapping of the other code points is the
    table of the Python runtime, a parameter here. *)
Variable unicode_upper : codepoint -> str.

Definition upper_char (c : codepoint) : str :=
  if c <? 128 then [ascii_upper c] else unicode_upper c.

(** [s.upper()] *)
Definition upper (s : str) : str := flat_map upper_char s.

(** The loop of lines 61 to 64; [otherwise] is what follows the loop. *)
Fixpoint check_palabras (palabras : list str) (query query_upper : str)
    (otherwise : M str) : M str :=
  match palabras with
  | [] => otherwise
  | palabra :: rest =>
      if contains palabra query_upper then
        registrar_alerta_seguridad query
          (utf8 "PALABRA PROHIBIDA DETECTADA: " ++ palabra) ;;
        ret (utf8 "ERROR DE SEGURIDAD: Uso prohibido de '" ++ palabra ++ utf8 "'.")
      else check_palabras rest query query_upper otherwise
  end.

Definition run_select_query (query : str) : M str :=
  let query_upper := strip (upper query) in
  if negb (startswith (utf8 "SELECT") query_upper) then
    registrar_alerta_seguridad query
      (utf8 "COMANDO NO AUTORIZADO (No empezó con SELECT)") ;;
    ret (utf8 "ERROR DE SEGURIDAD: Solo se permiten consultas SELECT.")
  else
    check_palabras PALABRAS_PROHIBIDAS query query_upper
      (if contains [SEMICOLON] (drop_last (strip query)) then
         registrar_alerta_seguridad query
           (utf8 "INTENTO DE MULTI-QUERY (Inyección)") ;;
         ret (utf8 "ERROR DE SEGURIDAD: No se permiten múltiples sentencias.")
       else execute_query query).

(** *** The gate: the decision of lines 54 to 68 on its own *)

Inductive ReasonCode : Type :=
| NotSelect
| ForbiddenKeyword (word : str)
| MultiStatement.

Inductive ValidationOutcome : Type :=
| Allowed (query : str)
| Rejected (reason : ReasonCode).

Definition validate (query : str) : ValidationOutcome :=
  let query_upper := strip (upper query) in
  if negb (startswith (utf8 "SELECT") query_upper) then Rejected NotSelect
  else
    match find (fun palabra => contains palabra query_upper) PALABRAS_PROHIBIDAS with
    | Some palabra => Rejected (ForbiddenKeyword palabra)
    | None =>
        if contains [SEMICOLON] (drop_last (strip query))
        then Rejected MultiStatement
        else Allowed query
    end.

(** The reason logged and the text returned for each rejection. *)
Definition motivo (r : ReasonCode) : str :=
  match r with
  | NotSelect => utf8 "COMANDO NO AUTORIZADO (No empezó con SELECT)"
  | ForbiddenKeyword palabra => utf8 "PALABRA PROHIBIDA DETECTADA: " ++ palabra
  | MultiStatement => utf8 "INTENTO DE MULTI-QUERY (Inyección)"
  end.

Definition security_error (r : ReasonCode) : str :=
  match r with
  | NotSelect => utf8 "ERROR DE SEGURIDAD: Solo se permiten consultas SELECT."
  | ForbiddenKeyword palabra =>
      utf8 "ERROR DE SEGURIDAD: Uso prohibido de '" ++ palabra ++ utf8 "'."
  | MultiStatement =>
      utf8 "ERROR DE SEGURIDAD: No se permiten múltiples sentencias."
  end.

(** *** The reporting operations *)

Definition list_creative_customers_query : str := utf8 "
        SELECT c.first_name, c.last_name, 
               (SELECT SUM(amount) FROM payment p WHERE p.customer_id = c.customer_id) as total_spent
        FROM customer c LIMIT 10;
        ".

(** [float(total_spent or 0)]: [None] and a zero amount are false, and
    give the integer 0. *)
Definition spent_of (total : option Z) : float :=
  match total with
  | None => float_zero
  | Some d => if (d =? 0)%Z then float_zero else float_of_hundredths d
  end.

Definition CROWN : str := utf8 "👑".
Definition GEM : str := utf8 "💎".
Definition BUST : str := utf8 "👤".

Definition avatar_of (spent : float) : str :=
  if float_gt spent 150 then CROWN else if float_gt spent 100 then GEM else BUST.

(** [f"{spent:.2f}"] *)
Definition fixed2 (spent : float) : str :=
  let hundredths := Z.abs_N (hundredths_of_float spent) in
  (if (mantissa spent <? 0)%Z then utf8 "-" else [])
  ++ str_of_N (hundredths / 100) ++ utf8 "." ++ pad2 (hundredths mod 100).

Definition customer_line (r : customer_row) : str :=
  let spent := spent_of (total_spent r) in
  let avatar := avatar_of spent in
  utf8 "| " ++ avatar ++ utf8 " | " ++ first_name r ++ utf8 " " ++ last_name r
  ++ utf8 " | $" ++ fixed2 spent ++ utf8 " |" ++ [LF].

Definition directory_header : str :=
  utf8 "### 👥 Directorio con Avatares" ++ [LF]
  ++ utf8 "| Avatar | Nombre | Nivel |" ++ [LF]
  ++ utf8 "| :--- | :--- | :--- |" ++ [LF].

Definition list_creative_customers : M str :=
  conn <- get_db_connection ;;
  try_finally
    (rows <- conn_fetch_fixed conn list_creative_customers_query fetch_customers_reply ;;
     ret (fold_left (fun res r => res ++ customer_line r) rows directory_header))
    (conn_close conn).

Definition business_advisor_query : str := utf8 "
        SELECT c.name, COUNT(r.rental_id) as total_rentals
        FROM category c
        JOIN film_category fc ON c.category_id = fc.category_id
        JOIN inventory i ON fc.film_id = i.film_id
        JOIN rental r ON i.inventory_id = r.inventory_id
        GROUP BY c.name
        ORDER BY total_rentals ASC
        LIMIT 3;
        ".

Definition business_advisor_agent : M str :=
  conn <- get_db_connection ;;
  try_finally
    (low_perf_cats <- conn_fetch_fixed conn business_advisor_query fetch_categories_reply ;;
     ret (utf8 "🤖 **Agente Analista Informa:**" ++ [LF]
          ++ utf8 "He detectado que las categorías " ++ join (utf8 ", ") low_perf_cats
          ++ utf8 " tienen muy poco movimiento." ++ [LF]
          ++ utf8 "💡 **Sugerencia:** Deberíamos implementar una promoción 2x1 en estas categorías este fin de semana para liberar inventario."))
    (conn_close conn).

(** ** Vocabulary of the properties *)

(** ASCII letters compared without regard to case. *)
Definition same_letter (a b : codepoint) : bool := ascii_upper a =? ascii_upper b.

Fixpoint startswith_ci (prefix s : str) : bool :=
  match prefix, s with
  | [], _ => true
  | _ :: _, [] => false
  | p :: prefix', c :: s' => same_letter p c && startswith_ci prefix' s'
  end.

(** [sub] occurs in [s] up to the case of its letters. *)
Fixpoint contains_ci (sub s : str) : bool :=
  startswith_ci sub s ||
  match s with
  | [] => false
  | _ :: s' => contains_ci sub s'
  end.

Definition is_capital (c : codepoint) : bool := (65 <=? c) && (c <=? 90).

(** The events an operation added to the trace of [w], given the world
    [w'] it left. *)
Definition new_events (w w' : World) : list event :=
  skipn (List.length (trace w)) (trace w').

Definition is_close (c : conn) (e : event) : bool :=
  match e with
  | EvClose c' => Nat.eqb c c'
  | _ => false
  end.

(** How many times connection [c] is closed in [evs]. *)
Definition closes (c : conn) (evs : list event) : nat :=
  List.length (filter (is_close c) evs).

(** The four exposed operations. *)
Inductive operation : Type :=
| ListTables
| RunSelectQuery (query : str)
| ListCreativeCustomers
| BusinessAdvisorAgent.

Definition call (op : operation) : M str :=
  match op with
  | ListTables => list_tables
  | RunSelectQuery query => run_select_query query
  | ListCreativeCustomers => list_creative_customers
  | BusinessAdvisorAgent => business_advisor_agent
  end.

(** The shape the three reporting operations share: one connection, one
    fixed query, a report of its rows, the connection closed. *)
Definition fixed_report {A} (sql : str) (answer : Database -> reply (list A))
    (report : list A -> str) : M str :=
  conn <- get_db_connection ;;
  try_finally
    (rows <- conn_fetch_fixed conn sql answer ;; ret (report rows))
    (conn_close conn).

(** The events of [execute_query] on connection [c], by what the server
    answers. *)
Definition execution_events (db : Database) (c : conn) (query : str) : list event :=
  match connect_reply db with
  | Fails _ => []
  | Ok _ =>
      match execute_reply db READ_ONLY with
      | Fails _ => [EvOpen c; EvExecute c READ_ONLY; EvClose c]
      | Ok _ => [EvOpen c; EvExecute c READ_ONLY; EvFetch c query; EvClose c]
      end
  end.

(** The exception, if any, that the read-only directive or the query
    raises on an open connection. *)
Definition execution_failure (db : Database) (query : str) : option exn :=
  match execute_reply db READ_ONLY with
  | Fails e => Some e
  | Ok _ =>
      match fetch_reply db query with
      | Fails e => Some e
      | Ok _ => None
      end
  end.






(** Connection [c] is opened first, used, and closed last and once. *)
Definition opened_and_closed_once (c : conn) (evs : list event) : Prop :=
  closes c evs = 1%nat
  /\ exists mid,
       evs = EvOpen c :: mid ++ [EvClose c]
       /\ forall e, In e mid ->
                    exists sql, e = EvExecute c sql \/ e = EvFetch c sql.

(** The exception, if any, with which writing [text] to the log of [w]
    fails: the one of opening the file, or the encoding error. *)
Definition log_failure (text : str) (w : World) : option exn :=
  match log_open_reply w with
  | Fails e => Some e
  | Ok _ =>
      if utf8_encodable text then None
      else Some (OtherException (encode_error_message text))
  end.

(** *** Vocabulary of the further properties *)

(** Two texts equal up to the case of their ASCII letters. *)
Definition same_text (a b : str) : Prop :=
  Forall2 (fun x y => same_letter x y = true) a b.

(** ASCII white space: tab to carriage return, the four separators and
    the space. *)
Definition ascii_blank (c : codepoint) : bool := is_space c && (c <? 128).

Definition failure_of {A} (r : reply A) : option exn :=
  match r with
  | Ok _ => None
  | Fails e => Some e
  end.

(** The exception with which the server fails the fixed query of a
    reporting operation, if it does. *)
Definition fixed_query_failure (db : Database) (op : operation) : option exn :=
  match op with
  | ListTables => failure_of (fetch_tables_reply db)
  | RunSelectQuery _ => None
  | ListCreativeCustomers => failure_of (fetch_customers_reply db)
  | BusinessAdvisorAgent => failure_of (fetch_categories_reply db)
  end.

(** The SQL text an operation fetches. *)
Definition fetched_sql (op : operation) : str :=
  match op with
  | ListTables => list_tables_query
  | RunSelectQuery query => query
  | ListCreativeCustomers => list_creative_customers_query
  | BusinessAdvisorAgent => business_advisor_query
  end.

(** *** Sample environments *)

(** A runtime whose [upper] leaves every code point beyond ASCII alone. *)
Definition no_case_mapping (c : codepoint) : str := [c].

Definition sample_time : datetime :=
  {| year := 2024; month := 5; day := 17; hour := 9; minute := 30; second := 4 |}.

Definition sample_customers : list customer_row :=
  [ {| first_name := utf8 "MARY"; last_name := utf8 "SMITH"; total_spent := Some 20000%Z |};
    {| first_name := utf8 "LINDA"; last_name := utf8 "JONES"; total_spent := Some 12000%Z |};
    {| first_name := utf8 "ANA"; last_name := utf8 "DIAZ"; total_spent := None |} ].

(** A server that accepts the connection and answers every query. *)
Definition healthy_db : Database :=
  {| connect_reply := Ok tt;
     execute_reply := fun _ => Ok tt;
     fetch_reply := fun _ => Ok [[(utf8 "first_name", PStr (utf8 "MARY"))]];
     fetch_tables_reply := Ok [utf8 "actor"; utf8 "customer"; utf8 "payment"];
     fetch_customers_reply := Ok sample_customers;
     fetch_categories_reply := Ok [utf8 "Music"; utf8 "Travel"; utf8 "Horror"] |}.

(** A server that accepts the connection and fails every statement. *)
Definition failing_db : Database :=
  {| connect_reply := Ok tt;
     execute_reply := fun _ => Ok tt;
     fetch_reply := fun _ => Fails (PostgresError (utf8 "relation does not exist"));
     fetch_tables_reply := Fails (PostgresError (utf8 "permission denied"));
     fetch_customers_reply := Fails (PostgresError (utf8 "permission denied"));
     fetch_categories_reply := Fails (PostgresError (utf8 "permission denied")) |}.

Definition world_of (db : Database) : World :=
  {| now := sample_time; log_file := []; log_open_reply := Ok tt;
     database := db; next_conn := 0%nat; trace := [] |}.

(** The same, with a log file that cannot be opened. *)
Definition world_without_log (db : Database) : World :=
  {| now := sample_time; log_file := [];
     log_open_reply :=
       Fails (OtherException
                (utf8 "[Errno 13] Permission denied: 'alertas_seguridad.log'"));
     database := db; next_conn := 0%nat; trace := [] |}.

Definition sample_select : str := utf8 "SELECT first_name FROM customer LIMIT 1;".



(** A server that refuses the connection. *)
Definition refusing_db : Database :=
  {| connect_reply := Fails (OtherException (utf8 "connection refused"));
     execute_reply := fun _ => Ok tt;
     fetch_reply := fun _ => Ok [];
     fetch_tables_reply := Ok [];
     fetch_customers_reply := Ok [];
     fetch_categories_reply := Ok [] |}.

(** A server that answers the query of the directory with eleven rows. *)
Definition eleven_rows_db : Database :=
  {| connect_reply := Ok tt;
     execute_reply := fun _ => Ok tt;
     fetch_reply := fun _ => Ok [];
     fetch_tables_reply := Ok [utf8 "customer"; utf8 "payment"];
     fetch_customers_reply :=
       Ok (map (fun i => {| first_name := utf8 "C";
                            last_name := str_of_N (N.of_nat i);
                            total_spent := None |})
               (seq 1 11));
     fetch_categories_reply := Ok [] |}.

(** * Properties *)

(** ** Strings *)

Example utf8_accent : utf8 "empezó" = [101; 109; 112; 101; 122; 243].
Proof. reflexivity. Qed.

Example utf8_warning : utf8 "⚠️" = [9888; 65039].
Proof. reflexivity. Qed.

Example utf8_crown : utf8 "👑" = [128081].
Proof. reflexivity. Qed.

Example strip_example : strip (utf8 "  select 1; ") = utf8 "select 1;".
Proof. reflexivity. Qed.

Example str_of_N_example : str_of_N 120 = utf8 "120".
Proof. reflexivity. Qed.

Lemma startswith_spec (p s : str) :
  startswith p s = true <-> exists rest, s = p ++ rest.
Proof.
  revert s; induction p as [|a p IH]; intros s; simpl.
  - split; [intros _; now exists s | reflexivity].
  - destruct s as [|c s].
    + split; [discriminate | intros [rest H]; discriminate].
    + rewrite andb_true_iff, N.eqb_eq, IH. split.
      * intros [-> [rest ->]]. now exists rest.
      * intros [rest H]. injection H as -> ->. split; [reflexivity | now exists rest].
Qed.

Lemma contains_spec (sub s : str) :
  contains sub s = true <-> exists pre post, s = pre ++ sub ++ post.
Proof.
  induction s as [|c s IH]; simpl.
  - rewrite orb_false_r, startswith_spec. split.
    + intros [rest H]. now exists [], rest.
    + intros [pre [post H]]. destruct pre; [now exists post | discriminate].
  - rewrite orb_true_iff, startswith_spec, IH. split.
    + intros [[rest H] | [pre [post H]]].
      * now exists [], rest.
      * exists (c :: pre), post. simpl. now rewrite H.
    + intros [[|a pre] [post H]].
      * left. now exists post.
      * right. injection H as _ H. now exists pre, post.
Qed.

Lemma startswith_contains (sub s : str) :
  startswith sub s = true -> contains sub s = true.
Proof. intros H. destruct s; simpl; now rewrite H. Qed.

Lemma contains_app_r (sub pre s : str) :
  contains sub s = true -> contains sub (pre ++ s) = true.
Proof.
  rewrite !contains_spec. intros [a [b ->]].
  exists (pre ++ a), b. now rewrite <- app_assoc.
Qed.

Lemma contains_rev (sub s : str) :
  contains sub s = true -> contains (rev sub) (rev s) = true.
Proof.
  rewrite !contains_spec. intros [a [b ->]].
  exists (rev b), (rev a). now rewrite !rev_app_distr, <- app_assoc.
Qed.

Lemma contains_lstrip (c : codepoint) (sub s : str) :
  is_space c = false ->
  contains (c :: sub) s = true -> contains (c :: sub) (lstrip s) = true.
Proof.
  intros Hc. induction s as [|a s IH]; [trivial|].
  intros H. cbn [lstrip]. destruct (is_space a) eqn:Ha; [|exact H].
  apply IH. cbn [contains startswith] in H.
  destruct (N.eqb_spec c a) as [->|_]; [congruence|].
  exact H.
Qed.

Lemma contains_strip (sub s : str) :
  sub <> [] -> forallb (fun c => negb (is_space c)) sub = true ->
  contains sub s = true -> contains sub (strip s) = true.
Proof.
  intros Hne Hall H. unfold strip, rstrip.
  rewrite <- (rev_involutive sub). apply contains_rev.
  destruct (rev sub) as [|c r] eqn:Hr.
  - apply (f_equal (@rev _)) in Hr. rewrite rev_involutive in Hr. contradiction.
  - rewrite <- Hr. rewrite Hr at 1. apply contains_lstrip.
    + rewrite forallb_forall in Hall.
      assert (In c sub) as Hin by (apply in_rev; rewrite Hr; now left).
      apply Hall in Hin. now apply negb_true_iff in Hin.
    + rewrite <- Hr. apply contains_rev.
      destruct sub as [|c0 sub0]; [contradiction|].
      apply contains_lstrip; [|exact H].
      simpl in Hall. apply andb_true_iff in Hall as [Hall _].
      now apply negb_true_iff in Hall.
Qed.

Lemma forbidden_word_shape (p : str) :
  In p PALABRAS_PROHIBIDAS ->
  p <> [] /\ forallb is_capital p = true
  /\ forallb (fun c => negb (is_space c)) p = true.
Proof.
  intros H. simpl in H.
  repeat (destruct H as [<- | H]; [repeat split; (discriminate || reflexivity)|]).
  contradiction.
Qed.

(** ** Floats *)

Local Open Scope Z_scope.

Example float_of_a_tenth :
  float_of_hundredths 10 = {| mantissa := 7205759403792794; exponent := -56 |}.
Proof. reflexivity. Qed.

Example float_of_a_hundredth :
  float_of_hundredths 1 = {| mantissa := 5764607523034235; exponent := -59 |}.
Proof. reflexivity. Qed.

Example float_round_trip :
  hundredths_of_float (float_of_hundredths (-15001)) = -15001.
Proof. reflexivity. Qed.

Lemma round_div_bounds (num den : Z) :
  0 < den -> num / den <= round_div num den <= num / den + 1.
Proof.
  intros Hd. unfold round_div.
  destruct (2 * (num mod den) <? den); [lia|].
  destruct (den <? 2 * (num mod den)); [lia|].
  destruct (Z.even (num / den)); lia.
Qed.

Lemma round_div_le (num den k : Z) :
  0 < den -> num <= k * den -> round_div num den <= k.
Proof.
  intros Hd H. unfold round_div.
  pose proof (Z.div_mod num den ltac:(lia)) as E.
  pose proof (Z.mod_pos_bound num den Hd) as B.
  assert (num / den <= k) as Hq by (apply Z.div_le_upper_bound; lia).
  destruct (Z.ltb_spec (2 * (num mod den)) den); [lia|].
  assert (num / den < k) by nia.
  destruct (den <? 2 * (num mod den)); [lia|].
  destruct (Z.even (num / den)); lia.
Qed.

Lemma round_div_ge (num den k : Z) :
  0 < den -> k * den <= num -> k <= round_div num den.
Proof.
  intros Hd H. pose proof (round_div_bounds num den Hd).
  assert (k <= num / den) by (apply Z.div_le_lower_bound; lia). lia.
Qed.

Lemma binade_spec (a j : Z) :
  0 < a -> 0 <= j -> 0 <= binade a + j ->
  100 * 2 ^ (binade a + j) <= a * 2 ^ j < 100 * 2 ^ (binade a + 1 + j).
Proof.
  intros Ha Hj He. unfold binade in *.
  set (y := a * 2 ^ 60 / 100) in *.
  assert (0 < y) as Hy.
  { apply Z.div_str_pos. assert (2 ^ 60 > 100) by reflexivity. nia. }
  pose proof (Z.log2_spec y Hy) as [Hlo Hhi].
  pose proof (Z.log2_nonneg y) as HL.
  set (L := Z.log2 y) in *.
  assert (100 * y <= a * 2 ^ 60 < 100 * (y + 1)) as [Hy1 Hy2].
  { pose proof (Z.div_mod (a * 2 ^ 60) 100 ltac:(lia)).
    pose proof (Z.mod_pos_bound (a * 2 ^ 60) 100 ltac:(lia)).
    fold y in H. lia. }
  assert (100 * 2 ^ L <= a * 2 ^ 60 < 100 * 2 ^ (L + 1)) as [H1 H2].
  { replace (Z.succ L) with (L + 1) in Hhi by lia. lia. }
  destruct (Z.le_ge_cases 60 j) as [Hc|Hc].
  - assert (0 < 2 ^ (j - 60)) as Hp by (apply Z.pow_pos_nonneg; lia).
    replace (2 ^ (L - 60 + j)) with (2 ^ L * 2 ^ (j - 60))
      by (rewrite <- Z.pow_add_r by lia; f_equal; lia).
    replace (2 ^ (L - 60 + 1 + j)) with (2 ^ (L + 1) * 2 ^ (j - 60))
      by (rewrite <- Z.pow_add_r by lia; f_equal; lia).
    replace (2 ^ j) with (2 ^ 60 * 2 ^ (j - 60))
      by (rewrite <- Z.pow_add_r by lia; f_equal; lia).
    generalize dependent (2 ^ (j - 60)). generalize dependent (2 ^ (L + 1)).
    generalize dependent (2 ^ L). generalize dependent (2 ^ 60).
    intros. split.
    + apply (Z.mul_le_mono_nonneg_r _ _ z2) in H1; lia.
    + apply (Z.mul_lt_mono_pos_r z2) in H2; lia.
  - assert (0 < 2 ^ (60 - j)) as Hp by (apply Z.pow_pos_nonneg; lia).
    replace (2 ^ L) with (2 ^ (L - 60 + j) * 2 ^ (60 - j)) in H1
      by (rewrite <- Z.pow_add_r by lia; f_equal; lia).
    replace (2 ^ (L + 1)) with (2 ^ (L - 60 + 1 + j) * 2 ^ (60 - j)) in H2
      by (rewrite <- Z.pow_add_r by lia; f_equal; lia).
    replace (2 ^ 60) with (2 ^ j * 2 ^ (60 - j)) in H1, H2
      by (rewrite <- Z.pow_add_r by lia; f_equal; lia).
    generalize dependent (2 ^ (60 - j)). generalize dependent (2 ^ (L - 60 + 1 + j)).
    generalize dependent (2 ^ (L - 60 + j)). generalize dependent (2 ^ j).
    intros. split.
    + apply (Z.mul_le_mono_pos_r _ _ z2); lia.
    + apply (Z.mul_lt_mono_pos_r z2); lia.
Qed.

Lemma binade_shift (a : Z) : 0 < a -> 0 <= binade a + 60.
Proof. intros _. unfold binade. pose proof (Z.log2_nonneg (a * 2 ^ 60 / 100)). lia. Qed.

Lemma significand_bounds (a : Z) :
  0 < a -> 2 ^ 52 <= significand a <= 2 ^ 53.
Proof.
  intros Ha. unfold significand.
  pose proof (binade_shift a Ha) as He.
  destruct (Z.leb_spec 0 (52 - binade a)) as [Hp|Hp].
  - pose proof (binade_spec a (52 - binade a) Ha Hp ltac:(lia)) as [H1 H2].
    replace (binade a + (52 - binade a)) with 52 in H1 by lia.
    replace (binade a + 1 + (52 - binade a)) with 53 in H2 by lia.
    split; [apply round_div_ge | apply round_div_le]; lia.
  - pose proof (binade_spec a 0 Ha ltac:(lia) ltac:(lia)) as [H1 H2].
    rewrite Z.mul_1_r, Z.add_0_r in *.
    assert (0 < 2 ^ (- (52 - binade a))) as Hq by (apply Z.pow_pos_nonneg; lia).
    replace (binade a) with (52 + - (52 - binade a)) in H1 at 1 by lia.
    replace (binade a + 1) with (53 + - (52 - binade a)) in H2 by lia.
    rewrite Z.pow_add_r in H1, H2 by lia.
    split; [apply round_div_ge | apply round_div_le]; lia.
Qed.

Lemma binade_upper (a n : Z) :
  0 < a -> a <= 100 * n -> n < 2 ^ 46 -> binade a <= 45.
Proof.
  intros Ha Hle Hn.
  pose proof (binade_shift a Ha) as He.
  pose proof (binade_spec a 60 Ha ltac:(lia) He) as [H1 _].
  assert (2 ^ (binade a + 60) < 2 ^ 106) as Hlt.
  { change (2 ^ 106) with (2 ^ 46 * 2 ^ 60).
    assert (0 < 2 ^ 60) by reflexivity. nia. }
  apply Z.pow_lt_mono_r_iff in Hlt; lia.
Qed.

Lemma float_gt_spec (h n : Z) :
  0 < n < 2 ^ 46 ->
  float_gt (float_of_hundredths h) n = (n * 100 <? h).
Proof.
  intros [Hn Hn46]. unfold float_of_hundredths.
  destruct (Z.eqb_spec h 0) as [->|Hh].
  - unfold float_gt. cbn. destruct (Z.ltb_spec n 0), (Z.ltb_spec (n * 100) 0); lia.
  - fold (significand (Z.abs h)).
    pose proof (significand_bounds (Z.abs h) ltac:(lia)) as [Hm1 Hm2].
    assert (0 < 2 ^ 52) as H52 by reflexivity.
    set (m := significand (Z.abs h)) in *.
    set (p := 52 - binade (Z.abs h)) in *.
    unfold float_gt. cbn [mantissa exponent]. rewrite Z.opp_involutive.
    destruct (Z.ltb_spec (n * 100) h) as [Hgt|Hle].
    + (* above the threshold *)
      rewrite Z.sgn_pos, Z.mul_1_l by lia.
      destruct (Z.leb_spec 0 (- p)) as [Hp|Hp].
      * assert (1 <= 2 ^ (- p)) by (apply Z.pow_pos_nonneg with (a := 2) in Hp; lia).
        apply Z.ltb_lt. nia.
      * apply Z.ltb_lt.
        destruct (Z.lt_ge_cases p 7) as [Hp7|Hp7].
        -- assert (2 ^ p <= 2 ^ 6) by (apply Z.pow_le_mono_r; lia).
           change (2 ^ 6) with 64 in *. change (2 ^ 46) with 70368744177664 in *.
           change (2 ^ 52) with 4503599627370496 in *. nia.
        -- assert (2 ^ 7 <= 2 ^ p) as H7 by (apply Z.pow_le_mono_r; lia).
           change (2 ^ 7) with 128 in H7.
           subst m. unfold significand. fold p.
           destruct (Z.leb_spec 0 p); [|lia].
           rewrite Z.abs_eq by lia.
           apply Z.lt_le_trans with (n * 2 ^ p + 1); [lia|].
           apply round_div_ge; nia.
    + (* at or below the threshold *)
      destruct (Z.lt_total h 0) as [Hneg|[?|Hpos]]; [|lia|].
      * rewrite Z.sgn_neg by lia.
        destruct (Z.leb_spec 0 (- p)) as [Hp|Hp]; apply Z.ltb_ge.
        -- assert (0 < 2 ^ (- p)) by (apply Z.pow_pos_nonneg; lia). nia.
        -- assert (0 < 2 ^ p) by (apply Z.pow_pos_nonneg; lia). nia.
      * rewrite Z.sgn_pos, Z.mul_1_l by lia.
        pose proof (binade_upper (Z.abs h) n ltac:(lia) ltac:(lia) Hn46).
        destruct (Z.leb_spec 0 (- p)) as [Hp|Hp]; [lia|].
        apply Z.ltb_ge. subst m. unfold significand. fold p.
        destruct (Z.leb_spec 0 p); [|lia].
        rewrite Z.abs_eq by lia.
        assert (0 < 2 ^ p) by (apply Z.pow_pos_nonneg; lia).
        apply round_div_le; nia.
Qed.

Local Close Scope Z_scope.

(** ** The gate of run_select_query *)

Lemma same_letter_upper (p c : codepoint) :
  is_capital p = true -> same_letter p c = true ->
  upper_char c = [p].
Proof.
  unfold is_capital, same_letter, upper_char, ascii_upper.
  intros Hp H. apply andb_true_iff in Hp as [Hp1 Hp2].
  apply N.leb_le in Hp1, Hp2. apply N.eqb_eq in H.
  destruct ((97 <=? p) && (p <=? 122)) eqn:Elow.
  - apply andb_true_iff in Elow as [E1 _]. apply N.leb_le in E1. lia.
  - destruct ((97 <=? c) && (c <=? 122)) eqn:Ec.
    + apply andb_true_iff in Ec as [E1 E2]. apply N.leb_le in E1, E2.
      destruct (N.ltb_spec c 128); [now rewrite H | lia].
    + subst c. destruct (N.ltb_spec p 128); [reflexivity | lia].
Qed.

Lemma startswith_ci_upper (word s : str) :
  forallb is_capital word = true ->
  startswith_ci word s = true -> startswith word (upper s) = true.
Proof.
  revert s. induction word as [|p word IH]; intros s Hcap H; [reflexivity|].
  destruct s as [|c s]; [discriminate|].
  simpl in Hcap, H. apply andb_true_iff in Hcap as [Hp Hcap].
  apply andb_true_iff in H as [Hpc H].
  change (upper (c :: s)) with (upper_char c ++ upper s).
  rewrite (same_letter_upper p c Hp Hpc). simpl.
  rewrite N.eqb_refl. now apply IH.
Qed.

Lemma contains_ci_upper (word s : str) :
  forallb is_capital word = true ->
  contains_ci word s = true -> contains word (upper s) = true.
Proof.
  intros Hcap. induction s as [|c s IH]; intros H.
  - simpl in H. rewrite orb_false_r in H.
    apply startswith_contains. now apply startswith_ci_upper.
  - cbn [contains_ci] in H. apply orb_true_iff in H as [H | H].
    + apply startswith_contains. now apply startswith_ci_upper.
    + change (upper (c :: s)) with (upper_char c ++ upper s).
      apply contains_app_r. now apply IH.
Qed.

Opaque utf8.

Lemma find_first {A} (f : A -> bool) (l : list A) (x : A) :
  find f l = Some x ->
  exists before after,
    l = before ++ x :: after /\ forall y, In y before -> f y = false.
Proof.
  induction l as [|a l IH]; [discriminate|]. cbn [find].
  destruct (f a) eqn:Ha.
  - intros [= ->]. exists [], l. split; [reflexivity | intros y []].
  - intros H. destruct (IH H) as [before [after [-> Hb]]].
    exists (a :: before), after. split; [reflexivity|].
    intros y [<-|Hy]; [exact Ha | now apply Hb].
Qed.

(** The loop over the forbidden words stops at the first one found. *)
Lemma check_palabras_find (palabras : list str) (query query_upper : str)
    (otherwise : M str) :
  check_palabras palabras query query_upper otherwise =
  match find (fun p => contains p query_upper) palabras with
  | Some palabra =>
      registrar_alerta_seguridad query
        (motivo (ForbiddenKeyword palabra)) ;;
      ret (security_error (ForbiddenKeyword palabra))
  | None => otherwise
  end.
Proof.
  induction palabras as [|p rest IH]; simpl; [reflexivity|].
  destruct (contains p query_upper); [reflexivity | exact IH].
Qed.

(** [run_select_query] logs and answers as [validate] decides, and runs
    the raw text when it is allowed. *)
Lemma run_select_query_gate (query : str) :
  run_select_query query =
  match validate query with
  | Rejected reason =>
      registrar_alerta_seguridad query (motivo reason) ;;
      ret (security_error reason)
  | Allowed _ => execute_query query
  end.
Proof.
  unfold run_select_query, validate.
  destruct (startswith (utf8 "SELECT") (strip (upper query))); cbn [negb]; [|reflexivity].
  rewrite check_palabras_find.
  destruct (find _ PALABRAS_PROHIBIDAS); [reflexivity|].
  destruct (contains [SEMICOLON] (drop_last (strip query))); reflexivity.
Qed.

Lemma run_rejected (query : str) (reason : ReasonCode) (w : World) :
  validate query = Rejected reason ->
  run_select_query query w =
  (registrar_alerta_seguridad query (motivo reason) ;;
   ret (security_error reason)) w.
Proof. intros H. now rewrite run_select_query_gate, H. Qed.

(** The logger writes its text, or raises and leaves the world as it was. *)
Lemma registrar_run (query reason : str) (w : World) :
  registrar_alerta_seguridad query reason w =
  match log_failure (alert_text (strftime (now w)) reason query) w with
  | None => (Returned tt, write_log (alert_text (strftime (now w)) reason query) w)
  | Some e => (Raised e, w)
  end.
Proof.
  unfold registrar_alerta_seguridad, log_failure.
  destruct (log_open_reply w); [|reflexivity].
  now destruct (utf8_encodable _).
Qed.

Lemma rejected_outcome (query : str) (reason : ReasonCode) (w : World) :
  validate query = Rejected reason ->
  run_select_query query w =
  match log_failure (alert_text (strftime (now w)) (motivo reason) query) w with
  | None =>
      (Returned (security_error reason),
       write_log (alert_text (strftime (now w)) (motivo reason) query) w)
  | Some e => (Raised e, w)
  end.
Proof.
  intros H. rewrite (run_rejected query reason w H).
  unfold bind. rewrite registrar_run.
  now destruct (log_failure _ w).
Qed.

Lemma run_allowed (query : str) (w : World) :
  validate query = Allowed query ->
  run_select_query query w = execute_query query w.
Proof. intros H. now rewrite run_select_query_gate, H. Qed.

Lemma validate_allowed_raw (query q : str) :
  validate query = Allowed q -> q = query.
Proof.
  unfold validate.
  destruct (negb _); [discriminate|].
  destruct (find _ _); [discriminate|].
  destruct (contains _ _); [discriminate|].
  now intros [= <-].
Qed.

(** C1, as the code has it.  Every input whose normalised text begins
    with SELECT and which contains one of the seven forbidden words, in
    any case and anywhere (inside an identifier or a literal too), is
    rejected with [ForbiddenKeyword].  The word named is the first entry
    of [PALABRAS_PROHIBIDAS], in the order of the list, that occurs in
    the normalised text: no entry listed before it occurs, and it is the
    contained word itself when no other entry occurs.  The list is DROP,
    DELETE, UPDATE, TRUNCATE, ALTER, GRANT, INSERT, in this order.  The
    operation then takes the branch of lines 63 and 64: the alert for
    that word, then the security error naming it. *)
Theorem forbidden_keyword_rejected (query word : str) (w : World) :
  startswith (utf8 "SELECT") (strip (upper query)) = true ->
  In word PALABRAS_PROHIBIDAS ->
  contains_ci word query = true ->
  PALABRAS_PROHIBIDAS
  = [utf8 "DROP"; utf8 "DELETE"; utf8 "UPDATE"; utf8 "TRUNCATE"; utf8 "ALTER";
     utf8 "GRANT"; utf8 "INSERT"]
  /\ exists before palabra after,
    PALABRAS_PROHIBIDAS = before ++ palabra :: after
    /\ (forall p, In p before -> contains p (strip (upper query)) = false)
    /\ contains palabra (strip (upper query)) = true
    /\ validate query = Rejected (ForbiddenKeyword palabra)
    /\ run_select_query query w =
       (registrar_alerta_seguridad query
          (utf8 "PALABRA PROHIBIDA DETECTADA: " ++ palabra) ;;
        ret (utf8 "ERROR DE SEGURIDAD: Uso prohibido de '" ++ palabra ++ utf8 "'.")) w
    /\ ((forall p, In p PALABRAS_PROHIBIDAS ->
                   contains p (strip (upper query)) = true -> p = word) ->
        palabra = word).
Proof.
  intros Hsel Hin Hci. split; [reflexivity|].
  destruct (forbidden_word_shape word Hin) as [Hne [Hcap Hsp]].
  assert (contains word (strip (upper query)) = true) as Hword.
  { apply contains_strip; trivial. now apply contains_ci_upper. }
  destruct (find (fun p => contains p (strip (upper query))) PALABRAS_PROHIBIDAS)
    as [palabra|] eqn:Hfind.
  - destruct (find_some _ _ Hfind) as [Hp Hc].
    assert (validate query = Rejected (ForbiddenKeyword palabra)) as Hval.
    { unfold validate. rewrite Hsel. cbn [negb]. now rewrite Hfind. }
    destruct (find_first _ _ _ Hfind) as [before [after [Hsplit Hbefore]]].
    exists before, palabra, after. repeat split; trivial.
    + exact (run_rejected query _ w Hval).
    + intros Honly. now apply Honly.
  - pose proof (find_none _ _ Hfind word Hin) as Hnone. cbv beta in Hnone. congruence.
Qed.


Lemma contains_single (c : codepoint) (s : str) :
  contains [c] s = true <-> In c s.
Proof.
  rewrite contains_spec. split.
  - intros [pre [post ->]]. apply in_or_app. right. now left.
  - intros H. apply in_split in H as [pre [post ->]]. now exists pre, post.
Qed.

Lemma find_all_false {A} (f : A -> bool) (l : list A) :
  (forall x, In x l -> f x = false) -> find f l = None.
Proof.
  induction l as [|a l IH]; intros H; [reflexivity|].
  simpl. rewrite (H a (or_introl eq_refl)). apply IH.
  intros x Hx. apply H. now right.
Qed.

(** C3. An input that begins with SELECT and has no forbidden word in
    its normalised text is rejected with [MultiStatement] when a [;]
    stands before the last character of its trimmed original text, and
    the operation takes the branch of lines 67 and 68; when its only [;]
    is the last character of the trimmed text, the check does not fire
    and the query is allowed.  The separator is the character [;]. *)
Theorem multi_statement_rejected (query : str) (w : World) :
  startswith (utf8 "SELECT") (strip (upper query)) = true ->
  (forall p, In p PALABRAS_PROHIBIDAS ->
             contains p (strip (upper query)) = false) ->
  ((exists pre post, strip query = pre ++ SEMICOLON :: post /\ post <> []) ->
   validate query = Rejected MultiStatement
   /\ run_select_query query w =
      (registrar_alerta_seguridad query (utf8 "INTENTO DE MULTI-QUERY (Inyección)") ;;
       ret (utf8 "ERROR DE SEGURIDAD: No se permiten múltiples sentencias.")) w)
  /\ ((exists body, strip query = body ++ [SEMICOLON] /\ ~ In SEMICOLON body) ->
      contains [SEMICOLON] (drop_last (strip query)) = false
      /\ validate query = Allowed query
      /\ run_select_query query w = execute_query query w)
  /\ [SEMICOLON] = utf8 ";".
Proof.
  intros Hsel Hnone.
  assert (forall b, contains [SEMICOLON] (drop_last (strip query)) = b ->
                    validate query =
                    if b then Rejected MultiStatement else Allowed query) as Hval.
  { intros b Hb. unfold validate. rewrite Hsel. cbn [negb].
    rewrite (find_all_false _ _ Hnone). now rewrite Hb. }
  split; [|split; [|vm_compute; reflexivity]].
  - intros [pre [post [Hq Hpost]]].
    assert (contains [SEMICOLON] (drop_last (strip query)) = true) as Hsemi.
    { apply contains_single. unfold drop_last. rewrite Hq.
      rewrite removelast_app by discriminate.
      apply in_or_app. right.
      destruct post; [contradiction | now left]. }
    pose proof (Hval true Hsemi) as Hrej. cbv iota in Hrej.
    split; [exact Hrej | exact (run_rejected query _ w Hrej)].
  - intros [body [Hq Hbody]].
    assert (contains [SEMICOLON] (drop_last (strip query)) = false) as Hsemi.
    { unfold drop_last. rewrite Hq, removelast_last.
      destruct (contains [SEMICOLON] body) eqn:E; [|reflexivity].
      apply contains_single in E. contradiction. }
    pose proof (Hval false Hsemi) as Hok. cbv iota in Hok.
    split; [exact Hsemi|]. split; [exact Hok | now apply run_allowed].
Qed.

(** ** Execution: connection, read-only session, log *)

Lemma skipn_length_app {A} (l evs : list A) :
  skipn (List.length l) (l ++ evs) = evs.
Proof. induction l; [reflexivity | assumption]. Qed.

Lemma new_events_app (w w' : World) (evs : list event) :
  trace w' = trace w ++ evs -> new_events w w' = evs.
Proof. unfold new_events. intros ->. apply skipn_length_app. Qed.

Ltac run_ops :=
  cbv beta delta
    [fixed_report execute_query read_only_fetch on_exception bind ret raise
     try_except try_finally of_reply get_db_connection conn_execute
     conn_fetch conn_fetch_fixed conn_close registrar_alerta_seguridad
     record_event fresh_conn write_log execution_events execution_failure];
  cbn.

Ltac split_log lo :=
  try (destruct lo as [[]|?]; cbn);
  try match goal with
      | |- context [utf8_encodable ?text] => destruct (utf8_encodable text); cbn
      end.

Ltac open_world w :=
  let db := fresh "db" in
  destruct w as [? ? ? db ? ?]; destruct db as [? ? ? ? ? ?].

Lemma list_tables_shape :
  list_tables =
  fixed_report list_tables_query fetch_tables_reply
    (fun tables => utf8 "Tablas encontradas en Pagila: " ++ join (utf8 ", ") tables).
Proof. reflexivity. Qed.

Lemma fold_left_lines {A} (line : A -> str) (rows : list A) (res : str) :
  fold_left (fun res r => res ++ line r) rows res = res ++ flat_map line rows.
Proof.
  revert res. induction rows as [|r rows IH]; intros res; simpl.
  - now rewrite app_nil_r.
  - now rewrite IH, <- app_assoc.
Qed.

Lemma list_creative_customers_shape (w : World) :
  list_creative_customers w =
  fixed_report list_creative_customers_query fetch_customers_reply
    (fun rows => directory_header ++ flat_map customer_line rows) w.
Proof.
  open_world w. unfold list_creative_customers. run_ops.
  destruct connect_reply0; cbn; [|reflexivity].
  destruct fetch_customers_reply0; cbn; [|reflexivity].
  now rewrite fold_left_lines.
Qed.

Lemma business_advisor_agent_shape :
  business_advisor_agent =
  fixed_report business_advisor_query fetch_categories_reply
    (fun low_perf_cats =>
       utf8 "🤖 **Agente Analista Informa:**" ++ [LF]
       ++ utf8 "He detectado que las categorías " ++ join (utf8 ", ") low_perf_cats
       ++ utf8 " tienen muy poco movimiento." ++ [LF]
       ++ utf8 "💡 **Sugerencia:** Deberíamos implementar una promoción 2x1 en estas categorías este fin de semana para liberar inventario.").
Proof. reflexivity. Qed.

(** What a reporting operation returns and leaves behind. *)
Lemma fixed_report_run {A} (sql : str) (answer : Database -> reply (list A))
    (report : list A -> str) (w : World) :
  fixed_report sql answer report w =
  match connect_reply (database w) with
  | Fails e => (Raised e, w)
  | Ok _ =>
      let c := next_conn w in
      (match answer (database w) with
       | Ok rows => Returned (report rows)
       | Fails e => Raised e
       end,
       record_event (EvClose c)
         (record_event (EvFetch c sql) (fresh_conn (record_event (EvOpen c) w))))
  end.
Proof.
  destruct w as [t l lo db n tr]. run_ops.
  destruct (connect_reply db); cbn; [|reflexivity].
  destruct (answer db); reflexivity.
Qed.

Lemma fixed_report_trace {A} (sql : str) (answer : Database -> reply (list A))
    (report : list A -> str) (w : World) :
  trace (snd (fixed_report sql answer report w)) =
  trace w ++
  match connect_reply (database w) with
  | Fails _ => []
  | Ok _ => [EvOpen (next_conn w); EvFetch (next_conn w) sql; EvClose (next_conn w)]
  end.
Proof.
  rewrite fixed_report_run.
  destruct (connect_reply (database w)); cbn.
  - now rewrite <- !app_assoc.
  - now rewrite app_nil_r.
Qed.

Lemma execute_query_trace (query : str) (w : World) :
  trace (snd (execute_query query w)) =
  trace w ++ execution_events (database w) (next_conn w) query.
Proof.
  destruct w as [t l lo db n tr]. run_ops.
  destruct (connect_reply db); cbn; [|now rewrite app_nil_r].
  destruct (execute_reply db READ_ONLY) as [u|[msg|msg]]; cbn.
  - destruct (fetch_reply db query) as [[|row rows]|[msg|msg]]; cbn;
      split_log lo; now rewrite <- !app_assoc.
  - split_log lo; now rewrite <- !app_assoc.
  - now rewrite <- !app_assoc.
Qed.

Lemma execute_query_refused (query : str) (w : World) (e : exn) :
  connect_reply (database w) = Fails e ->
  execute_query query w = (Raised e, w).
Proof. destruct w as [t l lo db n tr]. run_ops. now intros ->. Qed.


Lemma rejected_no_events (query : str) (reason : ReasonCode) (w : World) :
  validate query = Rejected reason ->
  new_events w (snd (run_select_query query w)) = []
  /\ next_conn (snd (run_select_query query w)) = next_conn w.
Proof.
  intros H. rewrite (rejected_outcome query reason w H).
  destruct (log_failure _ w); (split; [|reflexivity]);
    apply new_events_app; cbn; now rewrite app_nil_r.
Qed.

Lemma allowed_events (query q : str) (w : World) :
  validate query = Allowed q ->
  new_events w (snd (run_select_query query w)) =
  execution_events (database w) (next_conn w) query.
Proof.
  intros H. rewrite (validate_allowed_raw _ _ H) in H.
  rewrite (run_allowed query w H).
  apply new_events_app, execute_query_trace.
Qed.


(** C5. Whenever [run_select_query] fetches, the fetch is on the
    connection opened by this call, its text is the caller's query, and
    what precedes it on that connection is the opening and the statement
    [SET SESSION CHARACTERISTICS AS TRANSACTION READ ONLY], which the
    server accepted; the connection is then closed. *)
Theorem read_only_before_query (query : str) (w : World)
    (before after : list event) (c : conn) (sql : str) :
  new_events w (snd (run_select_query query w)) = before ++ EvFetch c sql :: after ->
  before = [EvOpen (next_conn w);
            EvExecute (next_conn w)
              (utf8 "SET SESSION CHARACTERISTICS AS TRANSACTION READ ONLY")]
  /\ c = next_conn w
  /\ sql = query
  /\ execute_reply (database w)
       (utf8 "SET SESSION CHARACTERISTICS AS TRANSACTION READ ONLY") = Ok tt
  /\ after = [EvClose c]
  /\ validate query = Allowed query.
Proof.
  change (utf8 "SET SESSION CHARACTERISTICS AS TRANSACTION READ ONLY")
    with READ_ONLY.
  destruct (validate query) as [q|reason] eqn:Hval.
  - pose proof (validate_allowed_raw _ _ Hval) as ->.
    rewrite (allowed_events _ _ w Hval). unfold execution_events.
    destruct (connect_reply (database w)) as [[]|e];
      destruct (execute_reply (database w) READ_ONLY) as [[]|e'];
      intros H;
      destruct before as [|b1 [|b2 [|b3 [|b4 [|b5 before]]]]];
      cbn in H; try discriminate H;
      try (destruct after; discriminate H);
      injection H as -> -> <- <- <-; repeat split; reflexivity.
  - rewrite (proj1 (rejected_no_events query reason w Hval)).
    intros H. destruct before; discriminate H.
Qed.

(** *** The security log *)








(** *** Answers and failures *)



(** *** Connections *)

Lemma fixed_events_once (c : conn) (sql : str) :
  opened_and_closed_once c [EvOpen c; EvFetch c sql; EvClose c].
Proof.
  split.
  - unfold closes. cbn. now rewrite Nat.eqb_refl.
  - exists [EvFetch c sql]. split; [reflexivity|].
    intros e [<-|[]]. exists sql. now right.
Qed.

Lemma execution_events_once (db : Database) (c : conn) (query : str) :
  connect_reply db = Ok tt ->
  opened_and_closed_once c (execution_events db c query).
Proof.
  intros Hc. unfold execution_events. rewrite Hc.
  destruct (execute_reply db READ_ONLY) as [u|err]; split.
  - unfold closes. cbn. now rewrite Nat.eqb_refl.
  - exists [EvExecute c READ_ONLY; EvFetch c query]. split; [reflexivity|].
    intros e [<-|[<-|[]]]; [exists READ_ONLY; now left | exists query; now right].
  - unfold closes. cbn. now rewrite Nat.eqb_refl.
  - exists [EvExecute c READ_ONLY]. split; [reflexivity|].
    intros e [<-|[]]. exists READ_ONLY. now left.
Qed.

Lemma fixed_report_events {A} (sql : str) (answer : Database -> reply (list A))
    (report : list A -> str) (w : World) (c : conn) :
  In (EvOpen c) (new_events w (snd (fixed_report sql answer report w))) ->
  c = next_conn w
  /\ connect_reply (database w) = Ok tt
  /\ opened_and_closed_once c
       (new_events w (snd (fixed_report sql answer report w))).
Proof.
  rewrite (new_events_app _ _ _ (fixed_report_trace sql answer report w)).
  destruct (connect_reply (database w)) as [[]|e]; [|intros []].
  intros [H|[H|[H|[]]]]; try discriminate H. injection H as <-.
  repeat split; apply fixed_events_once.
Qed.

(** C8. In each of the four operations a connection that was opened is
    the one of this call, it is closed exactly once, and the closing is
    the last thing the call does with the server, whatever the directive
    and the query answer or raise. *)
Theorem connection_closed_exactly_once (op : operation) (w : World) (c : conn) :
  In (EvOpen c) (new_events w (snd (call op w))) ->
  c = next_conn w
  /\ connect_reply (database w) = Ok tt
  /\ opened_and_closed_once c (new_events w (snd (call op w))).
Proof.
  destruct op as [|query| |]; cbn [call].
  - rewrite list_tables_shape. apply fixed_report_events.
  - destruct (validate query) as [q|r] eqn:Hval.
    + rewrite (allowed_events _ _ w Hval).
      destruct (connect_reply (database w)) as [[]|e] eqn:Hc.
      * intros H.
        assert (c = next_conn w) as ->.
        { unfold execution_events in H. rewrite Hc in H.
          destruct (execute_reply (database w) READ_ONLY); cbn in H;
            intuition (discriminate || congruence). }
        repeat split; now apply execution_events_once.
      * unfold execution_events. rewrite Hc. intros [].
    + rewrite (proj1 (rejected_no_events query r w Hval)). intros [].
  - rewrite list_creative_customers_shape. apply fixed_report_events.
  - rewrite business_advisor_agent_shape. apply fixed_report_events.
Qed.

(** ** Further properties of the operations *)

(** X1. When the server refuses the connection, each of the four
    operations raises the exception of the refusal, for
    [run_select_query] whenever the gate allows the query: nothing is
    answered, nothing is written to the log and no connection is
    counted, the world is as before the call. *)
Theorem refused_connection_is_raised (op : operation) (w : World) (e : exn) :
  connect_reply (database w) = Fails e ->
  (forall query, op = RunSelectQuery query -> validate query = Allowed query) ->
  call op w = (Raised e, w).
Proof.
  intros Hc Hop. destruct op as [|query| |]; cbn [call].
  - now rewrite list_tables_shape, fixed_report_run, Hc.
  - rewrite (run_allowed query w (Hop query eq_refl)).
    now apply execute_query_refused.
  - now rewrite list_creative_customers_shape, fixed_report_run, Hc.
  - now rewrite business_advisor_agent_shape, fixed_report_run, Hc.
Qed.

Lemma fixed_report_quiet {A} (sql : str) (answer : Database -> reply (list A))
    (report : list A -> str) (w : World) :
  log_file (snd (fixed_report sql answer report w)) = log_file w
  /\ forall c stmt,
       ~ In (EvExecute c stmt)
            (new_events w (snd (fixed_report sql answer report w))).
Proof.
  split.
  - rewrite fixed_report_run.
    destruct (connect_reply (database w)); reflexivity.
  - intros c stmt.
    rewrite (new_events_app _ _ _ (fixed_report_trace sql answer report w)).
    destruct (connect_reply (database w)); cbn; intuition discriminate.
Qed.

(** X2. The three reporting operations never write to the security log
    and never send the read-only directive, nor any other statement
    through [execute]: whatever the server answers, the log is as before
    and no [execute] event occurs. *)
Theorem reporting_never_logs_nor_sets_read_only (op : operation) (w : World) :
  (forall query, op <> RunSelectQuery query) ->
  log_file (snd (call op w)) = log_file w
  /\ forall c stmt, ~ In (EvExecute c stmt) (new_events w (snd (call op w))).
Proof.
  intros Hop. destruct op as [|query| |]; cbn [call].
  - rewrite list_tables_shape. apply fixed_report_quiet.
  - now destruct (Hop query).
  - rewrite list_creative_customers_shape. apply fixed_report_quiet.
  - rewrite business_advisor_agent_shape. apply fixed_report_quiet.
Qed.

Lemma fixed_report_failure {A} (sql : str) (answer : Database -> reply (list A))
    (report : list A -> str) (w : World) (e : exn) :
  connect_reply (database w) = Ok tt ->
  failure_of (answer (database w)) = Some e ->
  fst (fixed_report sql answer report w) = Raised e
  /\ new_events w (snd (fixed_report sql answer report w))
     = [EvOpen (next_conn w); EvFetch (next_conn w) sql; EvClose (next_conn w)].
Proof.
  intros Hc Hf. split.
  - rewrite fixed_report_run, Hc. cbn.
    destruct (answer (database w)); [discriminate Hf | now injection Hf as ->].
  - rewrite (new_events_app _ _ _ (fixed_report_trace sql answer report w)).
    now rewrite Hc.
Qed.

(** X3. When the server accepts the connection and fails the fixed query
    of a reporting operation, the operation raises that very exception,
    and it does so after closing the connection: the events of the call
    are the opening, the fetch of the fixed query and the closing. *)
Theorem reporting_error_raised_after_close (op : operation) (w : World) (e : exn) :
  (forall query, op <> RunSelectQuery query) ->
  connect_reply (database w) = Ok tt ->
  fixed_query_failure (database w) op = Some e ->
  fst (call op w) = Raised e
  /\ new_events w (snd (call op w))
     = [EvOpen (next_conn w); EvFetch (next_conn w) (fetched_sql op);
        EvClose (next_conn w)].
Proof.
  intros Hop Hc Hf. destruct op as [|query| |]; cbn [call fetched_sql] in *.
  - rewrite list_tables_shape. now apply fixed_report_failure.
  - now destruct (Hop query).
  - rewrite list_creative_customers_shape. now apply fixed_report_failure.
  - rewrite business_advisor_agent_shape. now apply fixed_report_failure.
Qed.


(** *** What reaches the database *)

Lemma allowed_checks (query q : str) :
  validate query = Allowed q ->
  startswith (utf8 "SELECT") (strip (upper query)) = true
  /\ (forall p, In p PALABRAS_PROHIBIDAS ->
                contains p (strip (upper query)) = false)
  /\ contains [SEMICOLON] (drop_last (strip query)) = false.
Proof.
  unfold validate.
  destruct (startswith (utf8 "SELECT") (strip (upper query))); [|discriminate].
  cbn [negb].
  destruct (find _ PALABRAS_PROHIBIDAS) eqn:Hfind; [discriminate|].
  destruct (contains [SEMICOLON] _); [discriminate|]. intros _.
  repeat split. intros p Hp. exact (find_none _ _ Hfind p Hp).
Qed.

(** X5. Whatever [run_select_query] fetches from the database is the
    caller's text as given, its normalised text begins with SELECT, it
    contains none of the seven forbidden words in any letter case, and
    a [;] in its trimmed text can only be the last character. *)
Theorem fetched_query_is_clean (query : str) (w : World) (c : conn) (sql : str) :
  In (EvFetch c sql) (new_events w (snd (run_select_query query w))) ->
  sql = query
  /\ startswith (utf8 "SELECT") (strip (upper query)) = true
  /\ (forall word, In word PALABRAS_PROHIBIDAS -> contains_ci word query = false)
  /\ (forall pre post, strip query = pre ++ SEMICOLON :: post -> post = []).
Proof.
  destruct (validate query) as [q|r] eqn:Hval.
  - pose proof (validate_allowed_raw _ _ Hval) as ->.
    destruct (allowed_checks _ _ Hval) as [Hsel [Hwords Hsemi]].
    rewrite (allowed_events _ _ w Hval). unfold execution_events. intros Hin.
    split; [|split; [exact Hsel|split]].
    + destruct (connect_reply (database w)); [|destruct Hin].
      destruct (execute_reply (database w) READ_ONLY); cbn in Hin;
        intuition (congruence || discriminate).
    + intros word Hword.
      destruct (contains_ci word query) eqn:Hci; [|reflexivity].
      destruct (forbidden_word_shape word Hword) as [Hne [Hcap Hsp]].
      rewrite <- (Hwords word Hword). symmetry.
      apply contains_strip; trivial. now apply contains_ci_upper.
    + intros pre post Hq. destruct post as [|a post]; [reflexivity|].
      assert (contains [SEMICOLON] (drop_last (strip query)) = true) as Habs.
      { apply contains_single. unfold drop_last. rewrite Hq.
        rewrite removelast_app by discriminate.
        apply in_or_app. right. now left. }
      congruence.
  - rewrite (proj1 (rejected_no_events query r w Hval)). intros [].
Qed.

(** *** The gate and the form of the text *)

Ltac split_comparisons :=
  repeat match goal with
         | |- context [?a <=? ?b] => destruct (N.leb_spec a b); cbn [andb orb]; try lia
         | |- context [?a <? ?b] => destruct (N.ltb_spec a b); cbn [andb orb]; try lia
         | |- context [?a =? ?b] => destruct (N.eqb_spec a b); cbn [andb orb]; try lia
         end.

Lemma same_letter_cases (x y : codepoint) :
  same_letter x y = true -> x = y \/ (65 <= x <= 122 /\ 65 <= y <= 122).
Proof.
  unfold same_letter, ascii_upper. intros H. apply N.eqb_eq in H.
  revert H. split_comparisons; intros; lia.
Qed.

Lemma letter_not_space (c : codepoint) : 65 <= c <= 122 -> is_space c = false.
Proof. intros H. unfold is_space. split_comparisons; reflexivity. Qed.

Lemma same_letter_space (x y : codepoint) :
  same_letter x y = true -> is_space x = is_space y.
Proof.
  intros H. destruct (same_letter_cases x y H) as [->|[Hx Hy]]; [reflexivity|].
  now rewrite !letter_not_space.
Qed.

Lemma same_letter_upper_char (x y : codepoint) :
  same_letter x y = true -> upper_char x = upper_char y.
Proof.
  intros H. destruct (same_letter_cases x y H) as [->|[Hx Hy]]; [reflexivity|].
  unfold upper_char. apply N.eqb_eq in H.
  destruct (N.ltb_spec x 128); [|lia]. destruct (N.ltb_spec y 128); [|lia].
  now rewrite H.
Qed.

Lemma same_text_upper (a b : str) : same_text a b -> upper a = upper b.
Proof.
  induction 1 as [|x y a b Hxy _ IH]; [reflexivity|].
  change (upper_char x ++ upper a = upper_char y ++ upper b).
  now rewrite IH, (same_letter_upper_char x y Hxy).
Qed.

Lemma same_text_lstrip (a b : str) :
  same_text a b -> same_text (lstrip a) (lstrip b).
Proof.
  induction 1 as [|x y a b Hxy Hab IH]; [constructor|].
  cbn [lstrip]. rewrite (same_letter_space x y Hxy).
  destruct (is_space y); [exact IH | now constructor].
Qed.

Lemma same_text_rev (a b : str) : same_text a b -> same_text (rev a) (rev b).
Proof.
  induction 1 as [|x y a b Hxy Hab IH]; [constructor|].
  cbn [rev]. apply Forall2_app; [exact IH | now repeat constructor].
Qed.

Lemma same_text_strip (a b : str) : same_text a b -> same_text (strip a) (strip b).
Proof.
  intros H. unfold strip, rstrip.
  now apply same_text_rev, same_text_lstrip, same_text_rev, same_text_lstrip.
Qed.

Lemma same_text_removelast (a b : str) :
  same_text a b -> same_text (removelast a) (removelast b).
Proof.
  induction 1 as [|x y a b Hxy Hab IH]; [constructor|].
  cbn [removelast]. destruct Hab; [constructor|].
  constructor; [exact Hxy | exact IH].
Qed.

Lemma same_text_semicolon (a b : str) :
  same_text a b -> contains [SEMICOLON] a = contains [SEMICOLON] b.
Proof.
  intros H.
  assert (In SEMICOLON a <-> In SEMICOLON b) as Hin.
  { induction H as [|x y a b Hxy _ IH]; [reflexivity|].
    cbn [In]. rewrite IH.
    destruct (same_letter_cases x y Hxy) as [->|[Hx Hy]]; [reflexivity|].
    unfold SEMICOLON. split; intros [E|E]; (lia || now right). }
  destruct (contains [SEMICOLON] a) eqn:Ea, (contains [SEMICOLON] b) eqn:Eb;
    try reflexivity.
  - apply contains_single, Hin, contains_single in Ea. congruence.
  - apply contains_single, Hin, contains_single in Eb. congruence.
Qed.

(** X6. The verdict of the gate does not depend on the case of the ASCII
    letters of the query: two texts that differ only in letter case are
    both allowed, or both rejected for the same reason and, for a
    forbidden word, with the same word. *)
Theorem validate_ignores_case (query1 query2 : str) :
  same_text query1 query2 ->
  validate query2 =
  match validate query1 with
  | Rejected reason => Rejected reason
  | Allowed _ => Allowed query2
  end.
Proof.
  intros H. unfold validate, drop_last.
  rewrite <- (same_text_upper _ _ H).
  rewrite <- (same_text_semicolon _ _
                (same_text_removelast _ _ (same_text_strip _ _ H))).
  destruct (negb _); [reflexivity|].
  destruct (find _ PALABRAS_PROHIBIDAS); [reflexivity|].
  now destruct (contains [SEMICOLON] _).
Qed.

Lemma lstrip_blank_app (ws s : str) :
  forallb is_space ws = true -> lstrip (ws ++ s) = lstrip s.
Proof.
  induction ws as [|c ws IH]; [reflexivity|].
  cbn [forallb app lstrip]. intros H. apply andb_true_iff in H as [-> H].
  now apply IH.
Qed.

Lemma lstrip_app_blank (s ws : str) :
  forallb is_space ws = true ->
  lstrip (s ++ ws) = match lstrip s with [] => [] | _ => lstrip s ++ ws end.
Proof.
  intros H. induction s as [|c s IH].
  - cbn. rewrite <- (app_nil_r ws). now rewrite lstrip_blank_app.
  - cbn [app lstrip]. now destruct (is_space c).
Qed.

Lemma rstrip_app_blank (s ws : str) :
  forallb is_space ws = true -> rstrip (s ++ ws) = rstrip s.
Proof.
  intros H. unfold rstrip. rewrite rev_app_distr, lstrip_blank_app; [reflexivity|].
  apply forallb_forall. intros c Hc. apply in_rev in Hc.
  now apply (proj1 (forallb_forall _ _) H).
Qed.

Lemma strip_padding (before s after : str) :
  forallb is_space before = true -> forallb is_space after = true ->
  strip (before ++ s ++ after) = strip s.
Proof.
  intros Hb Ha. unfold strip.
  rewrite (lstrip_blank_app before _ Hb), (lstrip_app_blank s after Ha).
  destruct (lstrip s) as [|c l]; [reflexivity|].
  now apply rstrip_app_blank.
Qed.

Lemma ascii_blank_space (ws : str) :
  forallb ascii_blank ws = true -> forallb is_space ws = true.
Proof.
  intros H. apply forallb_forall. intros c Hc.
  apply (proj1 (forallb_forall _ _) H) in Hc.
  now apply andb_true_iff in Hc as [Hc _].
Qed.

Lemma upper_blank (ws : str) : forallb ascii_blank ws = true -> upper ws = ws.
Proof.
  induction ws as [|c ws IH]; [reflexivity|].
  cbn [forallb]. intros H. apply andb_true_iff in H as [Hc H].
  change (upper (c :: ws)) with (upper_char c ++ upper ws).
  rewrite (IH H). unfold ascii_blank in Hc. apply andb_true_iff in Hc as [Hs Hlt].
  unfold upper_char. rewrite Hlt. unfold ascii_upper.
  destruct (N.leb_spec 97 c) as [H97|_]; [|reflexivity].
  exfalso. rewrite letter_not_space in Hs; [discriminate|].
  apply N.ltb_lt in Hlt. split; [lia|].
  destruct (N.le_gt_cases c 122); [trivial|].
  revert Hs. unfold is_space. split_comparisons; discriminate.
Qed.

(** X7. ASCII white space around a query does not change the verdict of
    the gate: the padded text is allowed, or rejected for the same
    reason, exactly as the text itself. *)
Theorem validate_ignores_padding (before query after : str) :
  forallb ascii_blank before = true ->
  forallb ascii_blank after = true ->
  validate (before ++ query ++ after) =
  match validate query with
  | Rejected reason => Rejected reason
  | Allowed _ => Allowed (before ++ query ++ after)
  end.
Proof.
  intros Hb Ha. unfold validate.
  assert (upper (before ++ query ++ after) = before ++ upper query ++ after) as ->.
  { unfold upper. rewrite !flat_map_app. fold (upper before) (upper after).
    now rewrite (upper_blank _ Hb), (upper_blank _ Ha). }
  rewrite !strip_padding by now apply ascii_blank_space.
  destruct (negb _); [reflexivity|].
  destruct (find _ PALABRAS_PROHIBIDAS); [reflexivity|].
  now destruct (contains [SEMICOLON] _).
Qed.

End Server.

(** *** The customer directory *)

Lemma directory_report (w : World) (rows : list customer_row) :
  connect_reply (database w) = Ok tt ->
  fetch_customers_reply (database w) = Ok rows ->
  fst (list_creative_customers w)
  = Returned (directory_header ++ flat_map customer_line rows).
Proof.
  intros Hc Hf.
  now rewrite list_creative_customers_shape, fixed_report_run, Hc, Hf.
Qed.

(** The avatar of a total follows the thresholds on the total itself:
    the comparisons of the float agree with those of the decimal. *)
Lemma avatar_by_threshold (total : option Z) :
  avatar_of (spent_of total)
  = match total with
    | None => BUST
    | Some d =>
        if (150 * 100 <? d)%Z then CROWN
        else if (100 * 100 <? d)%Z then GEM
        else BUST
    end.
Proof.
  destruct total as [d|]; [|reflexivity].
  assert (spent_of (Some d) = float_of_hundredths d) as ->.
  { unfold spent_of. now destruct (Z.eqb_spec d 0) as [->|_]. }
  unfold avatar_of. now rewrite !float_gt_spec by (split; reflexivity).
Qed.

(** C9. The directory [list_creative_customers] returns has, for every
    row of the reply and in its order, a line whose tier indicator
    depends on the total spend alone: the crown above 150, otherwise the
    gem above 100, otherwise the bust, and the bust for a null total,
    which counts as 0.  Totals are in hundredths. *)
Theorem tier_by_total_spent (w : World) (rows : list customer_row) :
  connect_reply (database w) = Ok tt ->
  fetch_customers_reply (database w) = Ok rows ->
  fst (list_creative_customers w)
  = Returned
      (directory_header
       ++ flat_map
            (fun r =>
               utf8 "| "
               ++ match total_spent r with
                  | None => utf8 "👤"
                  | Some d =>
                      if (150 * 100 <? d)%Z then utf8 "👑"
                      else if (100 * 100 <? d)%Z then utf8 "💎"
                      else utf8 "👤"
                  end
               ++ utf8 " | " ++ first_name r ++ utf8 " " ++ last_name r
               ++ utf8 " | $" ++ fixed2 (spent_of (total_spent r))
               ++ utf8 " |" ++ [LF])
            rows)
  /\ (forall r, total_spent r = None -> spent_of (total_spent r) = float_zero)
  /\ utf8 "👑" <> utf8 "💎" /\ utf8 "💎" <> utf8 "👤" /\ utf8 "👑" <> utf8 "👤".
Proof.
  intros Hc Hf. split; [|split].
  - rewrite (directory_report w rows Hc Hf). do 2 f_equal.
    apply flat_map_ext. intros r. unfold customer_line.
    rewrite avatar_by_threshold. reflexivity.
  - intros r ->. reflexivity.
  - repeat split; now vm_compute.
Qed.









(** *** The amount of a directory line *)

Local Open Scope Z_scope.

Lemma round_div_near (k den d : Z) :
  0 < den -> 2 * Z.abs d < den -> round_div (k * den + d) den = k.
Proof.
  intros Hden Hd. unfold round_div.
  destruct (Z.le_gt_cases 0 d) as [Hpos|Hneg].
  - assert ((k * den + d) / den = k) as ->
      by (symmetry; apply (Z.div_unique _ _ k d); lia).
    assert ((k * den + d) mod den = d) as ->
      by (symmetry; apply (Z.mod_unique _ _ k d); lia).
    destruct (Z.ltb_spec (2 * d) den); lia.
  - assert ((k * den + d) / den = k - 1) as ->
      by (symmetry; apply (Z.div_unique _ _ (k - 1) (den + d)); lia).
    assert ((k * den + d) mod den = den + d) as ->
      by (symmetry; apply (Z.mod_unique _ _ (k - 1) (den + d)); lia).
    destruct (Z.ltb_spec (2 * (den + d)) den); [lia|].
    destruct (Z.ltb_spec den (2 * (den + d))); lia.
Qed.

Lemma round_div_error (num den : Z) :
  0 < den -> 2 * Z.abs (round_div num den * den - num) <= den.
Proof.
  intros Hden. unfold round_div.
  pose proof (Z.div_mod num den ltac:(lia)) as E.
  pose proof (Z.mod_pos_bound num den Hden) as B.
  destruct (Z.ltb_spec (2 * (num mod den)) den); [lia|].
  destruct (Z.ltb_spec den (2 * (num mod den))); [lia|].
  destruct (Z.even (num / den)); lia.
Qed.

Lemma binade_small (a : Z) : 0 < a -> a < 100 * 2 ^ 46 -> binade a <= 45.
Proof.
  intros Ha Hlt.
  pose proof (binade_shift a Ha) as He.
  pose proof (binade_spec a 60 Ha ltac:(lia) He) as [H1 _].
  assert (2 ^ (binade a + 60) < 2 ^ 106) as Hpow.
  { change (2 ^ 106) with (2 ^ 46 * 2 ^ 60).
    assert (0 < 2 ^ 60) by reflexivity. nia. }
  apply Z.pow_lt_mono_r_iff in Hpow; lia.
Qed.

(** X8. The amount of a directory line is the total itself: for a total
    of [h] hundredths below 100 * 2^46 in absolute value, converting it
    to a float and formatting the float with two decimals gives back
    [h], so the line shows the sign, the units and the two decimals of
    the total exactly. *)
Theorem amount_printed_exactly (h : Z) :
  Z.abs h < 100 * 2 ^ 46 ->
  hundredths_of_float (float_of_hundredths h) = h
  /\ fixed2 (spent_of (Some h))
     = (if h <? 0 then utf8 "-" else [])
       ++ str_of_N (Z.abs_N h / 100) ++ utf8 "." ++ pad2 (Z.abs_N h mod 100).
Proof.
  intros Hh.
  assert (hundredths_of_float (float_of_hundredths h) = h
          /\ (mantissa (float_of_hundredths h) <? 0) = (h <? 0)) as [Hrt Hsign].
  { unfold float_of_hundredths.
    destruct (Z.eqb_spec h 0) as [->|Hne]; [split; reflexivity|].
    pose proof (significand_bounds (Z.abs h) ltac:(lia)) as [Hm _].
    assert (0 < 2 ^ 52) as H52 by reflexivity.
    pose proof (binade_small (Z.abs h) ltac:(lia) Hh) as He.
    unfold hundredths_of_float. cbn [mantissa exponent].
    set (p := 52 - binade (Z.abs h)) in *.
    assert (2 ^ 7 <= 2 ^ p) as H7 by (apply Z.pow_le_mono_r; lia).
    change (2 ^ 7) with 128 in H7.
    destruct (Z.leb_spec 0 (- p)); [lia|]. rewrite Z.opp_involutive.
    assert (significand (Z.abs h) = round_div (Z.abs h * 2 ^ p) 100) as Hsig.
    { unfold significand. fold p. destruct (Z.leb_spec 0 p); [reflexivity | lia]. }
    pose proof (round_div_error (Z.abs h * 2 ^ p) 100 ltac:(lia)) as Herr.
    rewrite <- Hsig in Herr.
    set (m := significand (Z.abs h)) in *.
    split.
    - replace (Z.sgn h * m * 100)
        with (h * 2 ^ p + Z.sgn h * (m * 100 - Z.abs h * 2 ^ p)).
      + apply round_div_near; [lia|].
        rewrite Z.abs_mul.
        replace (Z.abs (Z.sgn h)) with 1 by (destruct h; try reflexivity; lia).
        lia.
      + assert (Z.sgn h * Z.abs h = h) as E by (destruct h; cbn; lia).
        rewrite <- E at 1. ring.
    - destruct (Z.ltb_spec h 0).
      + rewrite Z.sgn_neg by lia. apply Z.ltb_lt. lia.
      + rewrite Z.sgn_pos by lia. apply Z.ltb_ge. lia. }
  split; [exact Hrt|].
  assert (spent_of (Some h) = float_of_hundredths h) as ->.
  { unfold spent_of. now destruct (Z.eqb_spec h 0) as [->|_]. }
  unfold fixed2. now rewrite Hrt, Hsign.
Qed.

Local Close Scope Z_scope.

(** ** The properties at sample inputs *)

Transparent utf8.


Example two_statements_refused :
  fst (run_select_query no_case_mapping
         (utf8 "SELECT * FROM customer; SELECT * FROM payment") (world_of healthy_db))
  = Returned (utf8 "ERROR DE SEGURIDAD: No se permiten múltiples sentencias.").
Proof. vm_compute. reflexivity. Qed.

Example one_row_report :
  run_select_query no_case_mapping sample_select (world_of healthy_db)
  = (Returned (utf8 "Resultados (1 filas):
first_name
--------------------------------------------------
MARY
"),
     {| now := sample_time; log_file := []; log_open_reply := Ok tt;
        database := healthy_db; next_conn := 1%nat;
        trace := [EvOpen 0%nat; EvExecute 0%nat READ_ONLY;
                  EvFetch 0%nat sample_select; EvClose 0%nat] |}).
Proof. vm_compute. reflexivity. Qed.

Example no_results_no_alert :
  run_select_query no_case_mapping (utf8 "SELECT 1 WHERE FALSE")
    (world_of eleven_rows_db)
  = (Returned (utf8 "La consulta no devolvió resultados."),
     {| now := sample_time; log_file := []; log_open_reply := Ok tt;
        database := eleven_rows_db; next_conn := 1%nat;
        trace := [EvOpen 0%nat; EvExecute 0%nat READ_ONLY;
                  EvFetch 0%nat (utf8 "SELECT 1 WHERE FALSE"); EvClose 0%nat] |}).
Proof. vm_compute. reflexivity. Qed.

Example database_error_logged :
  let out := run_select_query no_case_mapping
               (utf8 "select * from nonexistent_table") (world_of failing_db) in
  fst out = Returned (utf8 "ERROR DE BASE DE DATOS: relation does not exist")
  /\ log_file (snd out)
     = utf8 "⚠️ [2024-05-17 09:30:04] [BLOQUEADO] Motivo: ERROR DB: relation does not exist | Query: select * from nonexistent_table"
       ++ [LF].
Proof. split; vm_compute; reflexivity. Qed.

Example database_error_without_log :
  let out := run_select_query no_case_mapping
               (utf8 "select * from nonexistent_table")
               (world_without_log failing_db) in
  fst out
  = Raised (OtherException
              (utf8 "[Errno 13] Permission denied: 'alertas_seguridad.log'"))
  /\ trace (snd out)
     = [EvOpen 0%nat; EvExecute 0%nat READ_ONLY;
        EvFetch 0%nat (utf8 "select * from nonexistent_table"); EvClose 0%nat].
Proof. split; vm_compute; reflexivity. Qed.

Example drop_is_not_select :
  fst (run_select_query no_case_mapping (utf8 "DROP TABLE customer;")
         (world_of healthy_db))
  = Returned (utf8 "ERROR DE SEGURIDAD: Solo se permiten consultas SELECT.").
Proof. vm_compute. reflexivity. Qed.

Example tiers_of_sample_customers :
  map (fun r => avatar_of (spent_of (total_spent r))) sample_customers
  = [CROWN; GEM; BUST].
Proof. vm_compute. reflexivity. Qed.

Example refused_connection_raises :
  fst (run_select_query no_case_mapping sample_select
         (world_of {| connect_reply := Fails (OtherException (utf8 "connection refused"));
                      execute_reply := fun _ => Ok tt;
                      fetch_reply := fun _ => Ok [];
                      fetch_tables_reply := Ok [];
                      fetch_customers_reply := Ok [];
                      fetch_categories_reply := Ok [] |}))
  = Raised (OtherException (utf8 "connection refused")).
Proof. vm_compute. reflexivity. Qed.

Example encode_error_of_two_surrogates :
  encode_error_message (utf8 "ab" ++ [56320; 55296] ++ utf8 "c")
  = utf8 "'utf-8' codec can't encode characters in position 2-3: surrogates not allowed".
Proof. vm_compute. reflexivity. Qed.

Lemma forbidden_keyword_rejected_witness :
  exists palabra,
    validate no_case_mapping (utf8 "select updated_at from film")
    = Rejected (ForbiddenKeyword palabra)
    /\ palabra = utf8 "UPDATE".
Proof.
  destruct (forbidden_keyword_rejected no_case_mapping
              (utf8 "select updated_at from film") (utf8 "UPDATE")
              (world_of healthy_db))
    as [_ [before [palabra [after [_ [_ [_ [Hval [_ Honly]]]]]]]]].
  - vm_compute. reflexivity.
  - do 2 right. left. reflexivity.
  - vm_compute. reflexivity.
  - exists palabra. split; [exact Hval|]. apply Honly.
    intros p Hp Hc. simpl in Hp.
    repeat (destruct Hp as [<- | Hp];
            [first [reflexivity | vm_compute in Hc; discriminate Hc]|]).
    contradiction.
Defined.

(** With INSERT and DROP both in the text, the word named is DROP, the
    first of the list, not INSERT. *)
Lemma first_listed_word_is_named :
  startswith (utf8 "SELECT")
    (strip (upper no_case_mapping (utf8 "select insert_drop from t"))) = true
  /\ In (utf8 "INSERT") PALABRAS_PROHIBIDAS
  /\ contains_ci (utf8 "INSERT") (utf8 "select insert_drop from t") = true
  /\ validate no_case_mapping (utf8 "select insert_drop from t")
     = Rejected (ForbiddenKeyword (utf8 "DROP"))
  /\ validate no_case_mapping (utf8 "select insert_drop from t")
     <> Rejected (ForbiddenKeyword (utf8 "INSERT")).
Proof.
  repeat split; try (vm_compute; reflexivity).
  - do 6 right. left. reflexivity.
  - vm_compute. discriminate.
Qed.



Lemma multi_statement_rejected_witness :
  validate no_case_mapping (utf8 "SELECT * FROM customer; SELECT * FROM payment")
  = Rejected MultiStatement
  /\ validate no_case_mapping (utf8 " SELECT 1; ") = Allowed (utf8 " SELECT 1; ").
Proof.
  split.
  - apply (multi_statement_rejected no_case_mapping
             (utf8 "SELECT * FROM customer; SELECT * FROM payment")
             (world_of healthy_db)).
    + vm_compute. reflexivity.
    + intros p Hp. simpl in Hp.
      repeat (destruct Hp as [<- | Hp]; [vm_compute; reflexivity|]).
      contradiction.
    + exists (utf8 "SELECT * FROM customer"), (utf8 " SELECT * FROM payment").
      split; [vm_compute; reflexivity | discriminate].
  - apply (multi_statement_rejected no_case_mapping (utf8 " SELECT 1; ")
             (world_of healthy_db)).
    + vm_compute. reflexivity.
    + intros p Hp. simpl in Hp.
      repeat (destruct Hp as [<- | Hp]; [vm_compute; reflexivity|]).
      contradiction.
    + exists (utf8 "SELECT 1"). split; [vm_compute; reflexivity|].
      vm_compute. intuition discriminate.
Defined.



Lemma read_only_before_query_witness :
  [EvOpen 0%nat; EvExecute 0%nat READ_ONLY]
  = [EvOpen (next_conn (world_of healthy_db));
     EvExecute (next_conn (world_of healthy_db))
       (utf8 "SET SESSION CHARACTERISTICS AS TRANSACTION READ ONLY")]
  /\ execute_reply healthy_db
       (utf8 "SET SESSION CHARACTERISTICS AS TRANSACTION READ ONLY") = Ok tt.
Proof.
  destruct (read_only_before_query no_case_mapping sample_select
              (world_of healthy_db)
              [EvOpen 0%nat; EvExecute 0%nat READ_ONLY] [EvClose 0%nat]
              0%nat sample_select)
    as [Hbefore [_ [_ [Hro _]]]].
  - vm_compute. reflexivity.
  - split; [exact Hbefore | exact Hro].
Defined.



Lemma connection_closed_exactly_once_witness :
  closes 0%nat
    (new_events (world_of failing_db)
       (snd (call no_case_mapping ListCreativeCustomers (world_of failing_db))))
  = 1%nat.
Proof.
  destruct (connection_closed_exactly_once no_case_mapping ListCreativeCustomers
              (world_of failing_db) 0%nat) as [_ [_ [H _]]].
  - vm_compute. left. reflexivity.
  - exact H.
Defined.

Lemma tier_by_total_spent_witness :
  fst (list_creative_customers (world_of healthy_db))
  = Returned (utf8 "### 👥 Directorio con Avatares
| Avatar | Nombre | Nivel |
| :--- | :--- | :--- |
| 👑 | MARY SMITH | $200.00 |
| 💎 | LINDA JONES | $120.00 |
| 👤 | ANA DIAZ | $0.00 |
").
Proof.
  destruct (tier_by_total_spent (world_of healthy_db) sample_customers)
    as [Hreport _].
  - reflexivity.
  - reflexivity.
  - rewrite Hreport. vm_compute. reflexivity.
Defined.





(** ** The further properties at sample inputs *)

Lemma refused_connection_is_raised_witness :
  call no_case_mapping (RunSelectQuery sample_select) (world_of refusing_db)
  = (Raised (OtherException (utf8 "connection refused")), world_of refusing_db).
Proof.
  refine (refused_connection_is_raised no_case_mapping
            (RunSelectQuery sample_select) (world_of refusing_db)
            (OtherException (utf8 "connection refused")) eq_refl _).
  intros query [= <-]. vm_compute. reflexivity.
Defined.

Lemma reporting_never_logs_nor_sets_read_only_witness :
  log_file (snd (call no_case_mapping ListTables (world_of failing_db))) = [].
Proof.
  destruct (reporting_never_logs_nor_sets_read_only no_case_mapping ListTables
              (world_of failing_db)) as [Hlog _].
  - discriminate.
  - exact Hlog.
Defined.

Lemma reporting_error_raised_after_close_witness :
  fst (call no_case_mapping BusinessAdvisorAgent (world_of failing_db))
  = Raised (PostgresError (utf8 "permission denied"))
  /\ new_events (world_of failing_db)
       (snd (call no_case_mapping BusinessAdvisorAgent (world_of failing_db)))
     = [EvOpen (next_conn (world_of failing_db));
        EvFetch (next_conn (world_of failing_db)) (fetched_sql BusinessAdvisorAgent);
        EvClose (next_conn (world_of failing_db))].
Proof.
  refine (reporting_error_raised_after_close no_case_mapping BusinessAdvisorAgent
            (world_of failing_db) (PostgresError (utf8 "permission denied"))
            _ eq_refl eq_refl).
  discriminate.
Defined.


Lemma fetched_query_is_clean_witness :
  contains_ci (utf8 "DELETE") sample_select = false.
Proof.
  destruct (fetched_query_is_clean no_case_mapping sample_select
              (world_of healthy_db) 0%nat sample_select) as [_ [_ [Hwords _]]].
  - vm_compute. do 2 right. left. reflexivity.
  - apply Hwords. right. left. reflexivity.
Defined.

Lemma validate_ignores_case_witness :
  validate no_case_mapping (utf8 "Select Updated_At From Film")
  = Rejected (ForbiddenKeyword (utf8 "UPDATE")).
Proof.
  rewrite (validate_ignores_case no_case_mapping
             (utf8 "select updated_at from film")
             (utf8 "Select Updated_At From Film")).
  - vm_compute. reflexivity.
  - unfold same_text. vm_compute. repeat constructor.
Defined.

Lemma validate_ignores_padding_witness :
  validate no_case_mapping
    (utf8 "   " ++ utf8 "SELECT 1; DELETE FROM film" ++ [9; LF])
  = Rejected (ForbiddenKeyword (utf8 "DELETE")).
Proof.
  rewrite (validate_ignores_padding no_case_mapping (utf8 "   ")
             (utf8 "SELECT 1; DELETE FROM film") [9; LF]).
  - vm_compute. reflexivity.
  - vm_compute. reflexivity.
  - vm_compute. reflexivity.
Defined.

Lemma amount_printed_exactly_witness :
  fixed2 (spent_of (Some 15001%Z)) = utf8 "150.01".
Proof.
  destruct (amount_printed_exactly 15001%Z) as [_ H].
  - vm_compute. reflexivity.
  - rewrite H. vm_compute. reflexivity.
Defined.
